(** * deel-react-autocomplete: the AutoComplete widget

    A shallow embedding of [src/components/AutoComplete/index.tsx], the
    [useDebounce] hook and the [Dropdown] component, with the properties
    the specification states about them.

    Modelling conventions.
    - A JavaScript string is a [jsstring]: the list of its UTF-16 code
      units, each a number. [js "Canada"] is the string of a literal.
    - [toLowerCase] follows the case table of the language for the strings
      made of the units U+0000 to U+00FF and U+0130: it lowers [A]-[Z] and
      the capital letters of Latin-1, and turns U+0130 into the two units
      U+0069 U+0307. The rest of the case table is not written out: what
      [toLowerCase] gives on a string with any other unit is a parameter
      ([CaseTable]), and every property holds whatever it is.
    - Numbers that can be [-1] (the result of [indexOf]) are in [Z]; time
      is in milliseconds, in [nat].
    - React state is the record [State]; a [setX] call is a record update.
      An event handler followed by the render it causes and the effects of
      that render is one transition ([withHandler]).
    - [setTimeout]/[clearTimeout] act on an explicit queue of pending
      timers; [timeoutRef] is the ref cell of [useDebounce]. *)

From Stdlib Require Import List String Ascii NArith ZArith Lia Bool Arith.
Import ListNotations.

Set Implicit Arguments.

(* ================================================================= *)
(** * Part I: definitions *)
(* ================================================================= *)

(** ** JavaScript strings *)

Module JsString.

(** A UTF-16 code unit. *)
Definition CodeUnit : Type := N.

(** A string: its code units. *)
Definition jsstring : Type := list CodeUnit.

(** The string of a literal written with one-byte characters. *)
Definition js (s : string) : jsstring :=
  map N_of_ascii (list_ascii_of_string s).

(** The part of the case table that is not written out below: the
    lower-case form of a non-empty string, given by its first unit and
    the rest, as another non-empty string. It is consulted only for a
    string that has a unit other than U+0000-U+00FF and U+0130. *)
Class CaseTable : Type :=
  lowerBeyond : CodeUnit -> jsstring -> CodeUnit * jsstring.

(** The units whose lower-case form is written out. *)
Definition isTabled (u : CodeUnit) : bool :=
  ((u <=? 255) || (u =? 304))%N.

(** The lower-case form of a tabled unit: [A]-[Z] (U+0041-U+005A) and
    the capital letters of Latin-1 (U+00C0-U+00DE but the sign U+00D7)
    are [32] below their small letters; U+0130, the capital I with a dot
    above, becomes [i] followed by the combining dot U+0307; every other
    unit up to U+00FF has no other lower-case form. *)
Definition lowerUnit (u : CodeUnit) : jsstring :=
  if ((65 <=? u) && (u <=? 90))%N then [(u + 32)%N]
  else if ((192 <=? u) && (u <=? 222) && negb (u =? 215))%N
       then [(u + 32)%N]
  else if (u =? 304)%N then [105%N; 775%N]
  else [u].

(** [s.toLowerCase()] *)
Definition toLowerCase {table : CaseTable} (s : jsstring) : jsstring :=
  if forallb isTabled s then flat_map lowerUnit s
  else match s with
       | [] => []
       | u :: s' => let (h, t) := lowerBeyond u s' in h :: t
       end.

(** [s.length] *)
Definition jsLength (s : jsstring) : Z := Z.of_nat (List.length s).

(** [a === b] on strings. *)
Fixpoint strictEq (a b : jsstring) : bool :=
  match a, b with
  | [], [] => true
  | u :: a', v :: b' => (u =? v)%N && strictEq a' b'
  | _, _ => false
  end.

(** Whether [s] starts with [t]. *)
Fixpoint startsWith (t s : jsstring) : bool :=
  match t, s with
  | [], _ => true
  | u :: t', v :: s' => (u =? v)%N && startsWith t' s'
  | _ :: _, [] => false
  end.

(** [s.indexOf(t)]: the index of the first occurrence of [t] in [s], or
    [-1]. *)
Fixpoint indexOf (s t : jsstring) : Z :=
  if startsWith t s then 0%Z
  else match s with
       | [] => (-1)%Z
       | _ :: s' =>
           let r := indexOf s' t in
           if (r =? -1)%Z then (-1)%Z else (r + 1)%Z
       end.

(** [s.includes(t)]: ECMAScript defines it as [indexOf] not being [-1]. *)
Definition includes (s t : jsstring) : bool :=
  negb (indexOf s t =? -1)%Z.

(** The clamping of an index argument of [substring] into [0 .. length]. *)
Definition clamp (s : jsstring) (i : Z) : Z :=
  Z.min (Z.max i 0) (jsLength s).

(** [s.substring(start, end)]: both indices are clamped and swapped when
    [start > end]. *)
Definition substring (s : jsstring) (i j : Z) : jsstring :=
  let a := clamp s i in
  let b := clamp s j in
  let from := Z.min a b in
  let to := Z.max a b in
  firstn (Z.to_nat (to - from)) (skipn (Z.to_nat from) s).

(** [s.substring(start)]: [end] is [undefined], which stands for the
    length of [s]. *)
Definition substringFrom (s : jsstring) (i : Z) : jsstring :=
  substring s i (jsLength s).

(** A JavaScript string is truthy when it is not empty. *)
Definition truthy (s : jsstring) : bool := negb (strictEq s []).

End JsString.

Import JsString.

(** ** The event loop and [useDebounce] *)

Module Debounce.

Section Hook.

Variables A S : Type.

(** [callback] and [delay]: the two arguments of [useDebounce]. The
    callback acts on the state [S] of the program that owns the hook. *)
Variable callback : A -> S -> S.
Variable delay : nat.

(** A timer scheduled with [setTimeout] and not yet fired or cleared. *)
Record Timer : Type := mkTimer
  { timer_id : nat;
    deadline : nat;
    timer_args : A }.

(** The clock, the pending timers in firing order, the ref cell
    [timeoutRef] of the hook and the state of the program. [useRef] gives
    the same cell at every render, so every closure that [useDebounce]
    returns shares it. *)
Record World : Type := mkWorld
  { now : nat;
    next_id : nat;
    queue : list Timer;
    timeoutRef : option nat;
    app : S }.

(** [clearTimeout(id)]: removes the timer from the queue; nothing happens
    when [id] is [null] or names no pending timer. *)
Definition clearTimeout (id : option nat) (q : list Timer) : list Timer :=
  match id with
  | None => q
  | Some i => filter (fun t => negb (timer_id t =? i)) q
  end.

(** The queue is kept in firing order: a new timer goes after every timer
    that is due no later than it is. *)
Fixpoint enqueue (t : Timer) (q : list Timer) : list Timer :=
  match q with
  | [] => [t]
  | u :: q' =>
      if deadline t <? deadline u then t :: q else u :: enqueue t q'
  end.

(** The function returned by [useDebounce(callback, delay)], called with
    [args]:
    [clearTimeout(timeoutRef.current);
     timeoutRef.current = setTimeout(() => callback(...args), delay)]. *)
Definition debounced (args : A) (w : World) : World :=
  let id := next_id w in
  {| now := now w;
     next_id := Datatypes.S id;
     queue := enqueue (mkTimer id (now w + delay) args)
                (clearTimeout (timeoutRef w) (queue w));
     timeoutRef := Some id;
     app := app w |}.

Definition isDue (t0 : nat) (t : Timer) : bool := deadline t <=? t0.

(** The body of a timer: [callback(...args)]. *)
Definition fire (s : S) (t : Timer) : S := callback (timer_args t) s.

(** [ms] milliseconds pass: every timer that has become due fires, in
    queue order, and leaves the queue. *)
Definition elapse (ms : nat) (w : World) : World :=
  let t0 := now w + ms in
  {| now := t0;
     next_id := next_id w;
     queue := filter (fun t => negb (isDue t0 t)) (queue w);
     timeoutRef := timeoutRef w;
     app := fold_left fire (filter (isDue t0) (queue w)) (app w) |}.

Definition withApp (f : S -> S) (w : World) : World :=
  {| now := now w;
     next_id := next_id w;
     queue := queue w;
     timeoutRef := timeoutRef w;
     app := f (app w) |}.

Definition initWorld (s : S) : World :=
  {| now := 0; next_id := 0; queue := []; timeoutRef := None; app := s |}.

(** A first call of the debounced function on a fresh hook, then calls
    that each come [gap] milliseconds after the previous one. *)
Fixpoint runCalls (w : World) (calls : list (nat * A)) : World :=
  match calls with
  | [] => w
  | (gap, a) :: calls' => runCalls (debounced a (elapse gap w)) calls'
  end.

End Hook.

(** The action that records the arguments it is invoked with. *)
Definition record {A : Type} (a : A) (log : list A) : list A := log ++ [a].

End Debounce.

Import Debounce.

(** ** The [AutoComplete] component *)

Module AutoComplete.

(** What [highlightMatch] returns: the plain item, or the fragment of
    the text before the match, the [span] of class [highlightStyle] and
    the text after it. *)
Inductive ReactNode : Type :=
| Text (item : jsstring)
| Fragment (before : jsstring) (span : jsstring) (after : jsstring).

(** The four [useState] cells. *)
Record State : Type := mkState
  { inputValue : jsstring;
    filteredData : list jsstring;
    loading : bool;
    showDropdown : bool }.

Definition setInputValue (v : jsstring) (s : State) : State :=
  {| inputValue := v;
     filteredData := filteredData s;
     loading := loading s;
     showDropdown := showDropdown s |}.

Definition setFilteredData (l : list jsstring) (s : State) : State :=
  {| inputValue := inputValue s;
     filteredData := l;
     loading := loading s;
     showDropdown := showDropdown s |}.

Definition setLoading (b : bool) (s : State) : State :=
  {| inputValue := inputValue s;
     filteredData := filteredData s;
     loading := b;
     showDropdown := showDropdown s |}.

Definition setShowDropdown (b : bool) (s : State) : State :=
  {| inputValue := inputValue s;
     filteredData := filteredData s;
     loading := loading s;
     showDropdown := b |}.

(** [useState("")], [useState([])], [useState(false)], [useState(false)] *)
Definition initialState : State :=
  {| inputValue := [];
     filteredData := [];
     loading := false;
     showDropdown := false |}.

(** *** Event handlers *)

Definition handleChange (value : jsstring) (s : State) : State :=
  setShowDropdown true (setInputValue value s).

Definition handleClick (value : jsstring) (s : State) : State :=
  setShowDropdown false (setInputValue value s).

Definition handleOutsideClick (s : State) : State :=
  setFilteredData [] (setShowDropdown false s).

(** The test of the filter:
    [item.toLowerCase().includes(value.toLowerCase())]. *)
Definition matches {table : CaseTable} (value item : jsstring) : bool :=
  includes (toLowerCase item) (toLowerCase value).

(** The callback given to [useDebounce]: the filter pass. *)
Definition filterPass {table : CaseTable} (data : list jsstring)
  (value : jsstring) (s : State) : State :=
  let s1 := if truthy value
            then setFilteredData (filter (matches value) data) s
            else s in
  setLoading false s1.

(** [highlightMatch], which reads [inputValue] from the render it
    belongs to. *)
Definition highlightMatch {table : CaseTable} (inputValue item : jsstring)
  : ReactNode :=
  let index := indexOf (toLowerCase item) (toLowerCase inputValue) in
  if (index =? -1)%Z then Text item
  else Fragment
         (substring item 0 index)
         (substring item index (index + jsLength inputValue))
         (substringFrom item (index + jsLength inputValue)).

(** The three pieces the specification speaks of. The plain item, which
    [highlightMatch] returns when nothing is found, is the item with no
    emphasised part. *)
Record Pieces : Type := mkPieces
  { piecePrefix : jsstring;
    pieceMatch : jsstring;
    pieceSuffix : jsstring }.

Definition pieces (n : ReactNode) : Pieces :=
  match n with
  | Text item => mkPieces item [] []
  | Fragment b m a => mkPieces b m a
  end.

(** *** Rendering *)

(** A child of the list of the [Dropdown] component. *)
Inductive Li : Type :=
| NoMatch
| ListItem (backgroundColor : string) (value : jsstring) (content : ReactNode).

Fixpoint dropdownRows (highlight : jsstring -> ReactNode) (index : nat)
  (l : list jsstring) : list Li :=
  match l with
  | [] => []
  | item :: l' =>
      ListItem (if Nat.even index then "#f9f9f9" else "#fff")%string
               item (highlight item)
      :: dropdownRows highlight (Datatypes.S index) l'
  end.

(** The [Dropdown] component: the [noMatch] row when [filteredData] has
    length [0], one row per item otherwise. *)
Definition Dropdown (filteredData : list jsstring)
  (highlight : jsstring -> ReactNode) : list Li :=
  match filteredData with
  | [] => [NoMatch]
  | _ :: _ => dropdownRows highlight 0 filteredData
  end.

(** What [AutoComplete] renders: the value of the input, the loader, and
    the dropdown, which is mounted only when [showDropdown] holds. *)
Record View : Type := mkView
  { viewInput : jsstring;
    viewLoader : bool;
    viewDropdown : option (list Li) }.

Definition render {table : CaseTable} (s : State) : View :=
  {| viewInput := inputValue s;
     viewLoader := loading s;
     viewDropdown :=
       if showDropdown s
       then Some (Dropdown (filteredData s) (highlightMatch (inputValue s)))
       else None |}.

(** *** Effects, events and runs *)

(** Where a click lands: on the text input, on the [index]-th row of the
    dropdown, on its [noMatch] row, or outside the root of the widget. *)
Inductive Target : Type :=
| OnInput
| OnItem (index : nat)
| OnNoMatch
| Outside.

Definition inDropdown (t : Target) : bool :=
  match t with
  | OnItem _ | OnNoMatch => true
  | OnInput | Outside => false
  end.

Inductive Event : Type :=
| Elapse (ms : nat)
| Change (value : jsstring)
| Click (target : Target).

(** Modelled from the spec: [hooks/useOutsideClick] is imported by the
    component and is not among the sources. [watch(regionRef, onOutside)]
    invokes [onOutside] for a click whose target is not within the watched
    region. What it does while the ref is empty is left open by the
    specification and is the parameter [emptyRefIsOutside]. *)
Definition useOutsideClick (emptyRefIsOutside : bool)
  (region : option (Target -> bool)) (onOutside : State -> State)
  (t : Target) (s : State) : State :=
  match region with
  | Some inside => if inside t then s else onOutside s
  | None => if emptyRefIsOutside then onOutside s else s
  end.

Section Component.

Context {table : CaseTable}.

Variable emptyRefIsOutside : bool.

(** The [data] prop. *)
Variable data : list jsstring.

Definition W : Type := World jsstring State.

(** The quiet period given to [useDebounce]. *)
Definition quietPeriod : nat := 500.

(** [debounceFilter]: [useCallback] keeps the closure of the render in
    which [inputValue] last changed; all these closures share
    [timeoutRef], [data] and the setters. *)
Definition debounceFilter (value : jsstring) (w : W) : W :=
  debounced quietPeriod value w.

(** [useEffect(() => { setLoading(true); debounceFilter(inputValue) },
    [inputValue, debounceFilter])] *)
Definition effectFilter (w : W) : W :=
  let w1 := withApp (setLoading true) w in
  debounceFilter (inputValue (app w1)) w1.

(** [useEffect(() => { if (inputValue === "") setFilteredData([]) },
    [inputValue])] *)
Definition effectClear (w : W) : W :=
  if strictEq (inputValue (app w)) []
  then withApp (setFilteredData []) w
  else w.

(** [dropdownRef] is created by [useRef(null)] and is attached to no
    element, so its [current] stays [null]. *)
Definition dropdownRef : option (Target -> bool) := None.

(** A click reaches the two listeners on [document]: the one of
    [useOutsideClick(dropdownRef, handleOutsideClick)] and the one the
    component adds itself, which calls [handleOutsideClick] whatever the
    target is. *)
Definition documentClick (t : Target) (s : State) : State :=
  handleOutsideClick
    (useOutsideClick emptyRefIsOutside dropdownRef handleOutsideClick t s).

(** The effects whose dependencies changed run after the render: both
    depend on [inputValue] ([debounceFilter] changes exactly when
    [inputValue] does). *)
Definition commit (previous : jsstring) (w : W) : W :=
  if strictEq previous (inputValue (app w)) then w
  else effectClear (effectFilter w).

(** A handler, the render it causes and the effects of that render. *)
Definition withHandler (h : State -> State) (w : W) : W :=
  commit (inputValue (app w)) (withApp h w).

(** The first render: every effect runs. *)
Definition mount : W :=
  effectClear (effectFilter (@initWorld jsstring State initialState)).

(** The [onClick] of the row a click lands on, if it has one. *)
Definition rowHandler (t : Target) (s : State) : State :=
  match t with
  | OnItem i =>
      match nth_error (filteredData s) i with
      | Some item => handleClick item s
      | None => s
      end
  | _ => s
  end.

(** One event of the loop. When time passes, the due timers run the
    filter pass. A change of the input runs [handleChange]. A click first
    runs the [onClick] of the row it lands on, which React dispatches
    from the root of the application, and then, as it bubbles on, the
    listeners on [document]. *)
Definition step (e : Event) (w : W) : W :=
  match e with
  | Elapse ms => elapse (filterPass data) ms w
  | Change value => withHandler (handleChange value) w
  | Click t =>
      withHandler (documentClick t) (withHandler (rowHandler t) w)
  end.

(** An event can occur only on what is rendered: a row can be clicked
    only while the dropdown is mounted and has that row. *)
Definition enabled (e : Event) (w : W) : bool :=
  match e with
  | Click (OnItem i) =>
      showDropdown (app w) && (i <? List.length (filteredData (app w)))
  | Click OnNoMatch =>
      showDropdown (app w)
      && (List.length (filteredData (app w)) =? 0)
  | _ => true
  end.

(** The states of a mounted widget. *)
Inductive reachable : W -> Prop :=
| reach_mount : reachable mount
| reach_step (e : Event) (w : W) :
    reachable w -> enabled e w = true -> reachable (step e w).

(** The state after mounting the widget and a list of events. *)
Definition run (events : list Event) : W :=
  fold_left (fun w e => step e w) events mount.

(** Every event of the list is enabled when its turn comes. *)
Fixpoint allEnabled (w : W) (events : list Event) : bool :=
  match events with
  | [] => true
  | e :: events' => enabled e w && allEnabled (step e w) events'
  end.

End Component.

(** A candidate list for the examples. *)
Definition exampleData : list jsstring :=
  [js "Canada"; js "Cuba"; js "Peru"].

End AutoComplete.

Import AutoComplete.

(** ** The [data] prop as an untyped JavaScript value *)

Module Untyped.

(** The values a caller that ignores the prop type could pass:
    [undefined], [null], the primitive values, arrays, and, as [JsOther],
    any other object (a [String] object, a typed array, an object with
    methods of its own), of which nothing is known here. *)
#[warnings="-register-all"]
Inductive JsValue : Type :=
| JsUndefined
| JsNull
| JsBoolean (b : bool)
| JsNumber (n : Z)
| JsString (s : jsstring)
| JsArray (items : list JsValue)
| JsOther.

Inductive JsError : Type :=
| TypeError.

(** How a piece of code ends: with a value, with an exception, or in a
    way that is not determined here, because it called a method of a
    [JsOther]. *)
Inductive Completion (A : Type) : Type :=
| Normal (a : A)
| Throw (e : JsError)
| Unspecified.

Arguments Normal {A} a.
Arguments Throw {A} e.
Arguments Unspecified {A}.

(** [Array.prototype.filter] with the test
    [item.toLowerCase().includes(value.toLowerCase())]: the test is applied
    to the elements in order. A primitive string has the method
    [toLowerCase]; [undefined], [null], a boolean, a number and an array
    have not, and the call throws; the first element on which the test
    does not return ends the call. *)
Fixpoint filterItems {table : CaseTable} (value : jsstring)
  (items : list JsValue) : Completion (list jsstring) :=
  match items with
  | [] => Normal []
  | JsString s :: items' =>
      match filterItems value items' with
      | Normal rest => Normal (if matches value s then s :: rest else rest)
      | Throw e => Throw e
      | Unspecified => Unspecified
      end
  | JsOther :: _ => Unspecified
  | _ :: _ => Throw TypeError
  end.

(** [data.filter(...)]: an array has the method [filter]; [undefined],
    [null] and the primitive values have not, and the call throws. *)
Definition dataFilter {table : CaseTable} (data : JsValue) (value : jsstring)
  : Completion (list jsstring) :=
  match data with
  | JsArray items => filterItems value items
  | JsOther => Unspecified
  | _ => Throw TypeError
  end.

(** The filter pass on an untyped [data]: an exception leaves the body
    before [setFilteredData] and [setLoading]. *)
Definition filterPassUntyped {table : CaseTable} (data : JsValue)
  (value : jsstring) (s : State) : Completion State :=
  if truthy value
  then match dataFilter data value with
       | Normal filtered =>
           Normal (setLoading false (setFilteredData filtered s))
       | Throw e => Throw e
       | Unspecified => Unspecified
       end
  else Normal (setLoading false s).

Definition isString (v : JsValue) : bool :=
  match v with
  | JsString _ => true
  | _ => false
  end.

(** An array whose elements are all strings: what the prop type asks. *)
Definition isStringArray (data : JsValue) : bool :=
  match data with
  | JsArray items => forallb isString items
  | _ => false
  end.

(** No candidate list: [undefined] or [null]. *)
Definition isAbsent (data : JsValue) : bool :=
  match data with
  | JsUndefined | JsNull => true
  | _ => false
  end.

Definition ofStrings (l : list jsstring) : JsValue :=
  JsArray (map JsString l).

End Untyped.

Import Untyped.

(** ** The words of the specification *)

Module Spec.

(** [item] contains [q] as a literal substring when case is ignored. *)
Definition ciContains {table : CaseTable} (q item : jsstring) : Prop :=
  exists before after : jsstring,
    toLowerCase item = before ++ toLowerCase q ++ after.


(** [m] occurs in [item] between [before] and [after], equals [q] when
    case is ignored, and no occurrence of [q] starts earlier. *)
Definition firstOccurrence {table : CaseTable}
  (q item before m after : jsstring) : Prop :=
  item = before ++ m ++ after
  /\ toLowerCase m = toLowerCase q
  /\ forall before' m' after' : jsstring,
       item = before' ++ m' ++ after' ->
       toLowerCase m' = toLowerCase q ->
       List.length before <= List.length before'.

(** A string of Latin-1: every unit is at most U+00FF. *)
Definition latin1 (s : jsstring) : bool :=
  forallb (fun u => (u <=? 255)%N) s.

(** The lower-case form of a unit of Latin-1. *)
Definition lowerLatin1 (u : CodeUnit) : CodeUnit :=
  if ((65 <=? u) && (u <=? 90))%N then (u + 32)%N
  else if ((192 <=? u) && (u <=? 222) && negb (u =? 215))%N
       then (u + 32)%N
  else u.

(** A case table for the examples; no example has a string that
    consults it. *)
Definition sameBeyond : CaseTable := fun u s => (u, s).

(** The capital I with a dot above, U+0130. *)
Definition dottedI : CodeUnit := 304%N.

(** The last argument among those of a first call and the later ones. *)
Definition lastArgs {A : Type} (a0 : A) (calls : list (nat * A)) : A :=
  last (map snd calls) a0.

(** Each call comes within the quiet period of the previous one. *)
Definition withinQuietPeriod {A : Type} (delay : nat)
  (calls : list (nat * A)) : Prop :=
  Forall (fun c => fst c < delay) calls.

(** The debounced function has been called with [a], nothing has been
    invoked since the hook was created, and the only pending timer is the
    one of that call. *)
Definition armed {A : Type} (delay : nat) (w : World A (list A)) (a : A)
  : Prop :=
  exists t,
    queue w = [t]
    /\ timer_args t = a
    /\ deadline t = now w + delay
    /\ timeoutRef w = Some (timer_id t)
    /\ app w = [].

(** The invariant of the controller: either nothing is pending and the
    loader is off, or exactly one timer is pending, [timeoutRef] names
    it, it carries the current query, and the loader is on. *)
Definition settledOrPending (w : W) : Prop :=
  match queue w with
  | [] => loading (app w) = false
  | [t] =>
      timer_args t = inputValue (app w)
      /\ timeoutRef w = Some (timer_id t)
      /\ loading (app w) = true
  | _ :: _ :: _ => False
  end.

(** With an empty query there are no results. *)
Definition emptyQueryNoResults (w : W) : Prop :=
  inputValue (app w) = [] -> filteredData (app w) = [].

(** The arguments the action of a debounced function has been invoked
    with, in order, after a call with [a] and the later [calls]: a call
    is delivered when the next one comes no sooner than [delay] after
    it. The last call is still pending. *)
Fixpoint delivered {A : Type} (delay : nat) (a : A) (calls : list (nat * A))
  : list A :=
  match calls with
  | [] => []
  | (gap, a') :: calls' =>
      (if delay <=? gap then [a] else []) ++ delivered delay a' calls'
  end.

(** As [armed], with the list of what has been invoked so far. *)
Definition armedAfter {A : Type} (delay : nat) (w : World A (list A))
  (a : A) (log : list A) : Prop :=
  exists t,
    queue w = [t]
    /\ timer_args t = a
    /\ deadline t = now w + delay
    /\ timeoutRef w = Some (timer_id t)
    /\ app w = log.

(** A list of results that comes from [data]: nothing, or what the filter
    keeps of [data] for some non-empty query. *)
Definition fromData {table : CaseTable} (data : list jsstring)
  (l : list jsstring) : Prop :=
  l = [] \/ exists v : jsstring, v <> [] /\ l = filter (matches v) data.

(** With the loader off, the results are cleared or are the matches of
    the current query. *)
Definition settledResults {table : CaseTable} (data : list jsstring) (w : W)
  : Prop :=
  loading (app w) = false ->
  filteredData (app w) = []
  \/ filteredData (app w) = filter (matches (inputValue (app w))) data.

(** Every pending timer is due within the quiet period. *)
Definition pendingDueSoon (w : W) : Prop :=
  forall t, In t (queue w) -> deadline t <= now w + quietPeriod.

End Spec.

Import Spec.

(* ================================================================= *)
(** * Part II: properties *)
(* ================================================================= *)

Unset Implicit Arguments.

(** ** Strings *)

Section StringFacts.

Lemma strictEq_eq (a b : jsstring) : strictEq a b = true <-> a = b.
Proof.
  revert b; induction a as [|u a IH]; intros [|v b]; cbn;
    try (split; [discriminate | discriminate]); [tauto|].
  rewrite andb_true_iff, N.eqb_eq, IH. split.
  - now intros [-> ->].
  - intros E. injection E as -> ->. now split.
Qed.

Lemma strictEq_refl (a : jsstring) : strictEq a a = true.
Proof.
  now apply strictEq_eq.
Qed.

Lemma strictEq_neq (a b : jsstring) : strictEq a b = false <-> a <> b.
Proof.
  rewrite <- strictEq_eq. destruct (strictEq a b); split; congruence.
Qed.

Lemma startsWith_iff (t s : jsstring) :
  startsWith t s = true <-> exists r, s = t ++ r.
Proof.
  revert s; induction t as [|a t IH]; intros s.
  - cbn. split; eauto.
  - destruct s as [|b s]; cbn.
    + split; [discriminate | intros [r E]; discriminate].
    + rewrite andb_true_iff, N.eqb_eq, IH. split.
      * intros [-> [r ->]]. now exists r.
      * intros [r E]. injection E as -> ->. split; [reflexivity|].
        now exists r.
Qed.

Lemma indexOf_nil (t : jsstring) :
  indexOf [] t = if startsWith t [] then 0%Z else (-1)%Z.
Proof. reflexivity. Qed.

Lemma indexOf_cons (c : CodeUnit) (s t : jsstring) :
  indexOf (c :: s) t =
  if startsWith t (c :: s) then 0%Z
  else if (indexOf s t =? -1)%Z then (-1)%Z else (indexOf s t + 1)%Z.
Proof. reflexivity. Qed.

Lemma indexOf_lower_bound (s t : jsstring) : (-1 <= indexOf s t)%Z.
Proof.
  induction s as [|c s IH].
  - rewrite indexOf_nil. destruct (startsWith t []); lia.
  - rewrite indexOf_cons. destruct (startsWith t (c :: s)); [lia|].
    destruct (indexOf s t =? -1)%Z eqn:E; lia.
Qed.

(** When [indexOf] is not [-1] it is the position of an occurrence, and
    no occurrence starts before it. *)
Lemma indexOf_found (s t : jsstring) :
  indexOf s t <> (-1)%Z ->
  exists p r,
    s = p ++ t ++ r
    /\ indexOf s t = Z.of_nat (List.length p)
    /\ forall p' r', s = p' ++ t ++ r' ->
                     List.length p <= List.length p'.
Proof.
  induction s as [|c s IH].
  - rewrite indexOf_nil. destruct (startsWith t []) eqn:P; [|congruence].
    intros _. apply startsWith_iff in P as [r E].
    exists [], r. cbn. repeat split; auto. intros; lia.
  - rewrite indexOf_cons.
    destruct (startsWith t (c :: s)) eqn:P.
    + intros _. apply startsWith_iff in P as [r E].
      exists [], r. cbn. repeat split; auto. intros; lia.
    + destruct (indexOf s t =? -1)%Z eqn:Z1; [congruence|].
      intros _. apply Z.eqb_neq in Z1.
      destruct (IH Z1) as (p & r & E & I & M).
      exists (c :: p), r. repeat split.
      * cbn. now rewrite E.
      * rewrite I. cbn [List.length]. lia.
      * intros [|c' p'] r' E'; cbn in E'.
        -- assert (startsWith t (c :: s) = true) as Q
             by (apply startsWith_iff; now exists r').
           congruence.
        -- injection E' as _ E'. cbn. apply le_n_S. eapply M; eauto.
Qed.

(** When [indexOf] is [-1] there is no occurrence. *)
Lemma indexOf_absent (s t : jsstring) :
  indexOf s t = (-1)%Z -> forall p r, s <> p ++ t ++ r.
Proof.
  induction s as [|c s IH].
  - rewrite indexOf_nil. destruct (startsWith t []) eqn:P; [discriminate|].
    intros _ p r E. destruct p; cbn in E.
    + assert (startsWith t [] = true) as Q
        by (apply startsWith_iff; now exists r).
      congruence.
    + discriminate.
  - rewrite indexOf_cons.
    destruct (startsWith t (c :: s)) eqn:P; [discriminate|].
    destruct (indexOf s t =? -1)%Z eqn:Z1.
    + intros _ [|c' p] r E; cbn in E.
      * assert (startsWith t (c :: s) = true) as Q
          by (apply startsWith_iff; now exists r).
        congruence.
      * injection E as _ E. apply Z.eqb_eq in Z1.
        exact (IH Z1 _ _ E).
    + pose proof (indexOf_lower_bound s t). lia.
Qed.

Lemma includes_iff (s t : jsstring) :
  includes s t = true <-> exists p r, s = p ++ t ++ r.
Proof.
  unfold includes. rewrite negb_true_iff, Z.eqb_neq. split.
  - intros N. destruct (indexOf_found _ _ N) as (p & r & E & _). eauto.
  - intros (p & r & E) A. exact (indexOf_absent _ _ A _ _ E).
Qed.

End StringFacts.

(** ** [substring] *)

Section SubstringFacts.

(** The three calls of [substring] in [highlightMatch] cut the string in
    three consecutive pieces, wherever the index is. *)
Lemma substring_concat (s : jsstring) (i n : Z) :
  (0 <= i)%Z -> (0 <= n)%Z ->
  substring s 0 i ++ substring s i (i + n) ++ substringFrom s (i + n) = s.
Proof.
  intros Hi Hn. unfold substringFrom, substring, clamp, jsLength.
  set (len := List.length s).
  set (a := Z.to_nat (Z.min (Z.max i 0) (Z.of_nat len))).
  set (b := Z.to_nat (Z.min (Z.max (i + n) 0) (Z.of_nat len))).
  assert (Hab : a <= b) by (unfold a, b; lia).
  assert (Hb : b <= len) by (unfold b; lia).
  replace (Z.to_nat (Z.min (Z.min (Z.max 0 0) (Z.of_nat len))
                       (Z.min (Z.max i 0) (Z.of_nat len))))
    with 0 by lia.
  replace (Z.to_nat
             (Z.max (Z.min (Z.max 0 0) (Z.of_nat len))
                (Z.min (Z.max i 0) (Z.of_nat len))
              - Z.min (Z.min (Z.max 0 0) (Z.of_nat len))
                  (Z.min (Z.max i 0) (Z.of_nat len))))
    with a by (unfold a; lia).
  replace (Z.to_nat
             (Z.min (Z.min (Z.max i 0) (Z.of_nat len))
                (Z.min (Z.max (i + n) 0) (Z.of_nat len))))
    with a by (unfold a; lia).
  replace (Z.to_nat
             (Z.max (Z.min (Z.max i 0) (Z.of_nat len))
                (Z.min (Z.max (i + n) 0) (Z.of_nat len))
              - Z.min (Z.min (Z.max i 0) (Z.of_nat len))
                  (Z.min (Z.max (i + n) 0) (Z.of_nat len))))
    with (b - a) by (unfold a, b; lia).
  replace (Z.to_nat
             (Z.min (Z.min (Z.max (i + n) 0) (Z.of_nat len))
                (Z.min (Z.max (Z.of_nat len) 0) (Z.of_nat len))))
    with b by (unfold b; lia).
  replace (Z.to_nat
             (Z.max (Z.min (Z.max (i + n) 0) (Z.of_nat len))
                (Z.min (Z.max (Z.of_nat len) 0) (Z.of_nat len))
              - Z.min (Z.min (Z.max (i + n) 0) (Z.of_nat len))
                  (Z.min (Z.max (Z.of_nat len) 0) (Z.of_nat len))))
    with (len - b) by (unfold b; lia).
  cbn [skipn].
  rewrite (firstn_all2 (n := len - b)) by (rewrite length_skipn; fold len; lia).
  replace b with ((b - a) + a) at 2 by lia.
  rewrite <- skipn_skipn, firstn_skipn. apply firstn_skipn.
Qed.

(** On a string made of three pieces, cut where the pieces meet. *)
Lemma substring_pieces (p m r : jsstring) :
  let s := p ++ m ++ r in
  let i := Z.of_nat (List.length p) in
  let n := Z.of_nat (List.length m) in
  substring s 0 i = p
  /\ substring s i (i + n) = m
  /\ substringFrom s (i + n) = r.
Proof.
  intros s i n.
  assert (L : jsLength s = (i + n + Z.of_nat (List.length r))%Z).
  { unfold jsLength, s. rewrite !length_app. lia. }
  unfold substringFrom, substring, clamp. rewrite L. repeat split.
  - replace (Z.to_nat (Z.min _ _)) with 0 by lia.
    replace (Z.to_nat _) with (List.length p) by lia.
    cbn [skipn]. unfold s. rewrite firstn_app, firstn_all, Nat.sub_diag.
    cbn. apply app_nil_r.
  - replace (Z.to_nat (Z.min _ _)) with (List.length p) by lia.
    replace (Z.to_nat _) with (List.length m) by lia.
    unfold s. rewrite skipn_app, skipn_all, Nat.sub_diag. cbn.
    rewrite firstn_app, firstn_all, Nat.sub_diag. cbn. apply app_nil_r.
  - replace (Z.to_nat (Z.min _ _)) with (List.length (p ++ m))
      by (rewrite length_app; lia).
    replace (Z.to_nat _) with (List.length r) by lia.
    unfold s. rewrite app_assoc, skipn_app, skipn_all, Nat.sub_diag. cbn.
    apply firstn_all.
Qed.

End SubstringFacts.

(** ** [toLowerCase] *)

Section LowerCaseFacts.

Context {table : CaseTable}.

Lemma toLowerCase_nil : toLowerCase [] = [].
Proof. reflexivity. Qed.

Lemma lowerUnit_nonempty (u : CodeUnit) : lowerUnit u <> [].
Proof.
  unfold lowerUnit.
  destruct ((65 <=? u) && (u <=? 90))%N; [discriminate|].
  destruct ((192 <=? u) && (u <=? 222) && negb (u =? 215))%N;
    [discriminate|].
  destruct (u =? 304)%N; discriminate.
Qed.

(** The lower-case form of a non-empty string is not empty. *)
Lemma toLowerCase_nonempty (s : jsstring) :
  s <> [] -> toLowerCase s <> [].
Proof.
  destruct s as [|u s]; [congruence|]. intros _. unfold toLowerCase.
  destruct (forallb isTabled (u :: s)).
  - cbn [flat_map]. pose proof (lowerUnit_nonempty u).
    destruct (lowerUnit u); [congruence | discriminate].
  - destruct (lowerBeyond u s). discriminate.
Qed.

Lemma latin1_app (a b : jsstring) :
  latin1 (a ++ b) = latin1 a && latin1 b.
Proof.
  apply forallb_app.
Qed.

Lemma latin1_tabled (s : jsstring) :
  latin1 s = true -> forallb isTabled s = true.
Proof.
  unfold latin1. rewrite !forallb_forall. intros H u I.
  unfold isTabled. now rewrite (H u I).
Qed.

Lemma flat_map_lowerUnit_latin1 (s : jsstring) :
  latin1 s = true -> flat_map lowerUnit s = map lowerLatin1 s.
Proof.
  induction s as [|u s IH]; cbn; [reflexivity|].
  intros L. apply andb_true_iff in L as [Lu Ls]. rewrite (IH Ls).
  f_equal. unfold lowerUnit, lowerLatin1.
  destruct ((65 <=? u) && (u <=? 90))%N; [reflexivity|].
  destruct ((192 <=? u) && (u <=? 222) && negb (u =? 215))%N;
    [reflexivity|].
  destruct (u =? 304)%N eqn:E; [|reflexivity].
  apply N.eqb_eq in E. apply N.leb_le in Lu. lia.
Qed.

(** On a string of Latin-1, [toLowerCase] lowers unit by unit. *)
Lemma toLowerCase_latin1 (s : jsstring) :
  latin1 s = true -> toLowerCase s = map lowerLatin1 s.
Proof.
  intros L. unfold toLowerCase. rewrite (latin1_tabled s L).
  now apply flat_map_lowerUnit_latin1.
Qed.

End LowerCaseFacts.

(** ** [highlightMatch] *)

Section HighlightFacts.

Context {table : CaseTable}.

Lemma matches_iff (q item : jsstring) :
  matches q item = true <-> ciContains q item.
Proof.
  unfold matches, ciContains. apply includes_iff.
Qed.


Lemma highlightMatch_absent (q item : jsstring) :
  indexOf (toLowerCase item) (toLowerCase q) = (-1)%Z ->
  highlightMatch q item = Text item.
Proof.
  intros A. unfold highlightMatch. now rewrite A.
Qed.

(** On strings of Latin-1, where [toLowerCase] keeps every unit in its
    place, a successful search makes [highlightMatch] cut the item at the
    first occurrence of the query. *)
Lemma highlightMatch_found_latin1 (q item : jsstring) :
  latin1 q = true -> latin1 item = true ->
  indexOf (toLowerCase item) (toLowerCase q) <> (-1)%Z ->
  exists p m r,
    firstOccurrence q item p m r
    /\ List.length m = List.length q
    /\ highlightMatch q item = Fragment p m r.
Proof.
  intros Lq Li N.
  destruct (indexOf_found _ _ N) as (P & R & E & I & Min).
  rewrite (toLowerCase_latin1 item Li) in E.
  apply map_eq_app in E as (p & mr & Ei & Ep & Emr).
  apply map_eq_app in Emr as (m & r & Emr' & Em & Er).
  subst mr.
  assert (Lpmr : latin1 p = true /\ latin1 m = true /\ latin1 r = true).
  { rewrite Ei, !latin1_app, !andb_true_iff in Li. tauto. }
  destruct Lpmr as (Lp & Lm & Lr).
  assert (Em' : toLowerCase m = toLowerCase q)
    by (now rewrite (toLowerCase_latin1 m Lm)).
  assert (LP : List.length P = List.length p)
    by (now rewrite <- Ep, length_map).
  assert (LM : List.length m = List.length q).
  { rewrite <- (length_map lowerLatin1 m), Em.
    now rewrite (toLowerCase_latin1 q Lq), length_map. }
  exists p, m, r. repeat split; auto.
  - intros p' m' r' E' Em''. rewrite <- LP.
    assert (L' : latin1 p' = true /\ latin1 m' = true /\ latin1 r' = true).
    { rewrite E', !latin1_app, !andb_true_iff in Li. tauto. }
    destruct L' as (Lp' & Lm' & Lr').
    rewrite <- (length_map lowerLatin1 p').
    apply (Min (map lowerLatin1 p') (map lowerLatin1 r')).
    rewrite (toLowerCase_latin1 item Li), E', !map_app.
    now rewrite <- (toLowerCase_latin1 m' Lm'), Em''.
  - unfold highlightMatch. rewrite I.
    destruct (Z.of_nat (List.length P) =? -1)%Z eqn:Z1; [lia|].
    unfold jsLength. rewrite LP, <- LM, Ei.
    destruct (substring_pieces p m r) as (-> & -> & ->). reflexivity.
Qed.

End HighlightFacts.

(** ** The filter pass and the highlighter *)

Section FilterAndHighlight.

Context {table : CaseTable}.


Lemma filterPass_truthy (C : list jsstring) (q : jsstring) (s : State) :
  q <> [] ->
  filterPass C q s
  = setLoading false (setFilteredData (filter (matches q) C) s).
Proof.
  intros N. unfold filterPass, truthy.
  apply strictEq_neq in N. now rewrite N.
Qed.


(** C6, on the candidate ["İstanbul"], whose first unit is U+0130, and
    the query ["s"]: the query occurs in the candidate when case is
    ignored, and [highlightMatch] emphasises ["t"], which is not the
    query: the index found in the lowered candidate, which is one unit
    longer, is used on the candidate itself. *)
Theorem highlightMatch_after_dotted_I :
  ciContains (js "s") (dottedI :: js "stanbul")
  /\ highlightMatch (js "s") (dottedI :: js "stanbul")
     = Fragment (dottedI :: js "s") (js "t") (js "anbul")
  /\ toLowerCase (js "t") <> toLowerCase (js "s").
Proof.
  split; [|split].
  - exists [105%N; 775%N], (js "tanbul"). reflexivity.
  - reflexivity.
  - discriminate.
Qed.



(** The three pieces of [highlightMatch] put together give the candidate
    back, for every candidate and every query. *)
Lemma highlightMatch_concat (item q : jsstring) :
  piecePrefix (pieces (highlightMatch q item))
  ++ pieceMatch (pieces (highlightMatch q item))
  ++ pieceSuffix (pieces (highlightMatch q item))
  = item.
Proof.
  unfold highlightMatch.
  pose proof (indexOf_lower_bound (toLowerCase item) (toLowerCase q)) as B.
  destruct (indexOf (toLowerCase item) (toLowerCase q) =? -1)%Z eqn:E; cbn.
  - now rewrite app_nil_r.
  - apply Z.eqb_neq in E. apply substring_concat; unfold jsLength; lia.
Qed.

(** C10, on the candidate ["İx"], whose first unit is U+0130, and the
    query ["x"]: the pieces of [highlightMatch] always give the candidate
    back when put together; but here the query is found and the middle
    piece is empty, not as long as the query: the index found in the
    lowered candidate lies at the end of the candidate itself. *)
Theorem highlightMatch_pieces_after_dotted_I :
  (forall item q : jsstring,
      piecePrefix (pieces (highlightMatch q item))
      ++ pieceMatch (pieces (highlightMatch q item))
      ++ pieceSuffix (pieces (highlightMatch q item))
      = item)
  /\ ciContains (js "x") (dottedI :: js "x")
  /\ pieces (highlightMatch (js "x") (dottedI :: js "x"))
     = mkPieces (dottedI :: js "x") [] [].
Proof.
  split; [exact highlightMatch_concat|]. split.
  - exists [105%N; 775%N], []. reflexivity.
  - reflexivity.
Qed.

End FilterAndHighlight.

Section FilterAndHighlightRuns.

Existing Instance sameBeyond.





End FilterAndHighlightRuns.

(** ** A candidate list that is not an array of strings *)

Section UntypedData.

Context {table : CaseTable}.

Lemma filterItems_strings (value : jsstring) (l : list jsstring) :
  filterItems value (map JsString l) = Normal (filter (matches value) l).
Proof.
  induction l as [|item l IH]; cbn; [reflexivity|].
  rewrite IH. now destruct (matches value item).
Qed.

(** C9, amended. On an array of strings, the empty one included, the
    filter pass does not throw and does what the typed filter pass does;
    the empty array gives empty results for every non-empty query. The
    pass for the empty query does not read the list and only resets
    [loading], whatever the list is. A list that is absent, [undefined]
    or [null], is not taken for an empty list: the pass for a non-empty
    query throws a [TypeError] before it stores anything. *)
Theorem filterPass_untyped_data :
  (forall (l : list jsstring) (value : jsstring) (s : State),
      filterPassUntyped (ofStrings l) value s
      = Normal (filterPass l value s))
  /\ (forall (value : jsstring) (s : State),
         value <> [] -> filteredData (filterPass [] value s) = [])
  /\ (forall (data : JsValue) (s : State),
         filterPassUntyped data [] s = Normal (setLoading false s))
  /\ (forall (data : JsValue) (value : jsstring) (s : State),
         isAbsent data = true ->
         value <> [] ->
         filterPassUntyped data value s = Throw TypeError).
Proof.
  split; [|split; [|split]].
  - intros l value s. unfold filterPassUntyped, filterPass, ofStrings.
    destruct (truthy value); [|reflexivity].
    cbn. now rewrite filterItems_strings.
  - intros value s N. now rewrite (filterPass_truthy [] value s N).
  - reflexivity.
  - intros data value s A N. unfold filterPassUntyped, truthy.
    apply strictEq_neq in N. rewrite N. cbn.
    destruct data; try discriminate; reflexivity.
Qed.

End UntypedData.

Section UntypedDataRuns.

Existing Instance sameBeyond.

(** C9, as the claim states it, fails: with no candidate list at all the
    filter pass for the query ["a"] throws, where an empty list would give
    empty results. *)
Lemma filterPass_absent_data_counterexample :
  ~ (forall (data : JsValue) (value : jsstring) (s : State),
        isStringArray data = false ->
        filterPassUntyped data value s = Normal (filterPass [] value s)).
Proof.
  intros H. specialize (H JsUndefined (js "a") initialState eq_refl).
  vm_compute in H. discriminate.
Qed.

Lemma a_is_not_empty : js "a" <> [].
Proof. discriminate. Qed.

Lemma filterPass_untyped_data_witness :
  js "a" <> []
  /\ isAbsent JsNull = true
  /\ filteredData (filterPass [] (js "a") initialState) = []
  /\ filterPassUntyped JsNull (js "a") initialState = Throw TypeError.
Proof.
  split; [exact a_is_not_empty|]. split; [reflexivity|]. split.
  - exact (proj1 (proj2 filterPass_untyped_data) (js "a") initialState
             a_is_not_empty).
  - exact (proj2 (proj2 (proj2 filterPass_untyped_data))
             JsNull (js "a") initialState eq_refl a_is_not_empty).
Defined.

End UntypedDataRuns.

(** ** [useDebounce] *)

Section DebounceFacts.

Variable A : Type.
Variable delay : nat.

Lemma last_nonempty_default (d d' : A) (l : list A) (x : A) :
  last (x :: l) d = last (x :: l) d'.
Proof.
  revert x; induction l as [|y l IH]; intros x; [reflexivity|].
  change (last (y :: l) d = last (y :: l) d'). apply IH.
Qed.

Lemma last_cons_default (x d : A) (l : list A) : last (x :: l) d = last l x.
Proof.
  destruct l as [|y l]; [reflexivity|].
  change (last (y :: l) d = last (y :: l) x). apply last_nonempty_default.
Qed.

Lemma armed_first_call (a : A) :
  armed delay (debounced delay a (initWorld A [])) a.
Proof.
  eexists. cbn. repeat split.
Qed.

(** A call that comes before the pending timer is due replaces it. *)
Lemma armed_next_call (w : World A (list A)) (a a' : A) (gap : nat) :
  armed delay w a -> gap < delay ->
  armed delay (debounced delay a' (elapse (@record A) gap w)) a'.
Proof.
  intros (t & Q & _ & D & R & L) G.
  assert (Due : isDue (now w + gap) t = false).
  { unfold isDue. apply Nat.leb_gt. lia. }
  unfold armed, debounced, elapse. cbn. rewrite Q, R, L. cbn.
  rewrite Due. cbn. rewrite Nat.eqb_refl. cbn.
  eexists. repeat split.
Qed.

Lemma armed_runCalls (calls : list (nat * A)) :
  forall (w : World A (list A)) (a : A),
    armed delay w a -> withinQuietPeriod delay calls ->
    armed delay (runCalls (@record A) delay w calls) (lastArgs a calls).
Proof.
  induction calls as [|[gap a'] calls IH]; intros w a Ar Q.
  - exact Ar.
  - inversion Q as [|? ? G Q']; subst. cbn in G.
    unfold lastArgs. cbn [map snd]. rewrite last_cons_default.
    apply IH; [|exact Q'].
    now apply (armed_next_call w a a' gap).
Qed.

(** The pending timer fires once the quiet period is over, not before. *)
Lemma armed_elapse (w : World A (list A)) (a : A) (d : nat) :
  armed delay w a ->
  app (elapse (@record A) d w) = if delay <=? d then [a] else [].
Proof.
  intros (t & Q & Ta & D & _ & L). unfold elapse. cbn. rewrite Q, L. cbn.
  unfold isDue. rewrite D.
  destruct (delay <=? d) eqn:E.
  - apply Nat.leb_le in E.
    assert (H : (now w + delay <=? now w + d) = true)
      by (apply Nat.leb_le; lia).
    rewrite H. cbn. unfold fire, record. now rewrite Ta.
  - apply Nat.leb_gt in E.
    assert (H : (now w + delay <=? now w + d) = false)
      by (apply Nat.leb_gt; lia).
    now rewrite H.
Qed.

(** C2. After a first call of the debounced function and any number of
    further calls that each come less than the quiet period after the
    previous one, one timer is pending, that of the last call, and the
    action has not been invoked; it is invoked once, with the arguments
    of the last call, when the quiet period has passed since that call,
    and not before. *)
Theorem debounce_coalesces (a0 : A) (calls : list (nat * A)) :
  withinQuietPeriod delay calls ->
  let w := runCalls (@record A) delay
             (debounced delay a0 (initWorld A [])) calls in
  map (@timer_args A) (queue w) = [lastArgs a0 calls]
  /\ app w = []
  /\ forall d : nat,
       app (elapse (@record A) d w)
       = if delay <=? d then [lastArgs a0 calls] else [].
Proof.
  intros Q w.
  assert (Ar : armed delay w (lastArgs a0 calls)).
  { apply armed_runCalls; [apply armed_first_call | exact Q]. }
  split; [|split].
  - destruct Ar as (t & Qu & Ta & _). now rewrite Qu, <- Ta.
  - now destruct Ar as (t & _ & _ & _ & _ & L).
  - intros d. now apply armed_elapse.
Qed.

End DebounceFacts.

Lemma three_calls_within_quiet_period :
  withinQuietPeriod quietPeriod [(100, js "ab"); (499, js "abc")].
Proof.
  repeat constructor; cbn; unfold quietPeriod; lia.
Qed.

Lemma debounce_coalesces_witness :
  withinQuietPeriod quietPeriod [(100, js "ab"); (499, js "abc")]
  /\ forall d : nat,
       app (elapse (@record jsstring) d
              (runCalls (@record jsstring) quietPeriod
                 (debounced quietPeriod (js "a") (initWorld jsstring []))
                 [(100, js "ab"); (499, js "abc")]))
       = if quietPeriod <=? d then [js "abc"] else [].
Proof.
  split; [exact three_calls_within_quiet_period|].
  exact (proj2 (proj2 (debounce_coalesces jsstring quietPeriod (js "a")
                         [(100, js "ab"); (499, js "abc")]
                         three_calls_within_quiet_period))).
Defined.

(** ** The controller *)

Section ControllerFacts.

Context {table : CaseTable}.

Variable onEmptyRef : bool.
Variable data : list jsstring.

(** *** Handlers and the effects that follow them *)

(** The state after a handler, its render and the effects: when the
    query changed, the loader is switched on and empty results are
    stored if the new query is empty. *)
Lemma app_withHandler (h : State -> State) (w : W) :
  app (withHandler h w) =
  let s := h (app w) in
  if strictEq (inputValue (app w)) (inputValue s) then s
  else if strictEq (inputValue s) []
       then setFilteredData [] (setLoading true s)
       else setLoading true s.
Proof.
  unfold withHandler, commit. cbn.
  destruct (strictEq (inputValue (app w)) (inputValue (h (app w))));
    [reflexivity|].
  unfold effectClear. cbn.
  destruct (strictEq (inputValue (h (app w))) []); reflexivity.
Qed.

Lemma inputValue_withHandler (h : State -> State) (w : W) :
  inputValue (app (withHandler h w)) = inputValue (h (app w)).
Proof.
  rewrite app_withHandler. cbn.
  destruct (strictEq (inputValue (app w)) (inputValue (h (app w))));
    [reflexivity|].
  destruct (strictEq (inputValue (h (app w))) []); reflexivity.
Qed.

Lemma showDropdown_withHandler (h : State -> State) (w : W) :
  showDropdown (app (withHandler h w)) = showDropdown (h (app w)).
Proof.
  rewrite app_withHandler. cbn.
  destruct (strictEq (inputValue (app w)) (inputValue (h (app w))));
    [reflexivity|].
  destruct (strictEq (inputValue (h (app w))) []); reflexivity.
Qed.

(** Whatever the target and whatever [useOutsideClick] does with its
    empty ref, the listeners on [document] hide the dropdown, clear the
    results and keep the query and the loader. *)
Lemma documentClick_state (t : Target) (s : State) :
  documentClick onEmptyRef t s =
  {| inputValue := inputValue s;
     filteredData := [];
     loading := loading s;
     showDropdown := false |}.
Proof.
  unfold AutoComplete.documentClick, useOutsideClick, dropdownRef.
  destruct onEmptyRef; reflexivity.
Qed.

(** After a click, wherever it lands, the dropdown is hidden and the
    results are empty. *)
Lemma click_dismisses (t : Target) (w : W) :
  showDropdown (app (step onEmptyRef data (Click t) w)) = false
  /\ filteredData (app (step onEmptyRef data (Click t) w)) = [].
Proof.
  cbn [AutoComplete.step]. set (w1 := withHandler (rowHandler t) w).
  rewrite app_withHandler. cbn zeta. rewrite documentClick_state. cbn.
  rewrite strictEq_refl. now split.
Qed.

Lemma inputValue_click (t : Target) (w : W) :
  inputValue (app (step onEmptyRef data (Click t) w))
  = inputValue (rowHandler t (app w)).
Proof.
  cbn [AutoComplete.step].
  rewrite inputValue_withHandler, documentClick_state. cbn.
  apply inputValue_withHandler.
Qed.

(** The selection as a transition: after [handleClick], its render and
    the effects, the query is the value and the dropdown is hidden; the
    results are the same unless the value is the empty jsstring, for which
    the effect on the query clears them. *)
Lemma handleClick_transition (value : jsstring) (w : W) :
  inputValue (app (withHandler (handleClick value) w)) = value
  /\ showDropdown (app (withHandler (handleClick value) w)) = false
  /\ (value <> [] ->
      filteredData (app (withHandler (handleClick value) w))
      = filteredData (app w)).
Proof.
  rewrite inputValue_withHandler, showDropdown_withHandler.
  repeat split. intros N. rewrite app_withHandler. cbn.
  apply strictEq_neq in N. rewrite N.
  destruct (strictEq (inputValue (app w)) value); reflexivity.
Qed.

(** *** The invariant of the controller *)

Lemma effectClear_settled (w : W) :
  settledOrPending (effectClear w) <-> settledOrPending w.
Proof.
  unfold effectClear. destruct (strictEq (inputValue (app w)) []); reflexivity.
Qed.

Lemma settled_mount : settledOrPending mount.
Proof.
  cbn. repeat split.
Qed.

(** When time passes, a pending timer either stays or fires, and the
    filter pass switches the loader off. *)
Lemma settled_elapse (ms : nat) (w : W) :
  settledOrPending w -> settledOrPending (elapse (filterPass data) ms w).
Proof.
  unfold settledOrPending, elapse. cbn.
  destruct (queue w) as [|t [|u q]]; cbn; [tauto | | tauto].
  intros (Ta & R & L). destruct (isDue (now w + ms) t); cbn.
  - reflexivity.
  - now repeat split.
Qed.

(** A handler that leaves the loader alone keeps the invariant: when it
    changes the query, the effect replaces the pending timer. *)
Lemma settled_withHandler (h : State -> State) (w : W) :
  (forall s, loading (h s) = loading s) ->
  settledOrPending w -> settledOrPending (withHandler h w).
Proof.
  intros Hl I. unfold withHandler, commit. cbn.
  destruct (strictEq (inputValue (app w)) (inputValue (h (app w)))) eqn:E.
  - apply strictEq_eq in E. unfold settledOrPending in *. cbn.
    rewrite Hl, <- E. exact I.
  - apply effectClear_settled.
    unfold settledOrPending in *. cbn.
    destruct (queue w) as [|t [|u q]]; [| |contradiction].
    + destruct (timeoutRef w); cbn; now repeat split.
    + destruct I as (_ & R & _). rewrite R. cbn.
      rewrite Nat.eqb_refl. cbn. now repeat split.
Qed.

Lemma loading_rowHandler (t : Target) (s : State) :
  loading (rowHandler t s) = loading s.
Proof.
  destruct t; cbn; try reflexivity.
  destruct (nth_error (filteredData s) index); reflexivity.
Qed.

Lemma filteredData_rowHandler (t : Target) (s : State) :
  filteredData (rowHandler t s) = filteredData s.
Proof.
  destruct t; cbn; try reflexivity.
  destruct (nth_error (filteredData s) index); reflexivity.
Qed.

Lemma settled_step (e : Event) (w : W) :
  settledOrPending w -> settledOrPending (step onEmptyRef data e w).
Proof.
  intros I. destruct e as [ms|value|t]; cbn [step].
  - now apply settled_elapse.
  - now apply settled_withHandler.
  - apply settled_withHandler.
    + intros s. now rewrite documentClick_state.
    + apply settled_withHandler; [apply loading_rowHandler | exact I].
Qed.

Lemma reachable_settled (w : W) :
  reachable onEmptyRef data w -> settledOrPending w.
Proof.
  induction 1 as [|e w _ IH _].
  - exact settled_mount.
  - now apply settled_step.
Qed.

(** *** An empty query has no results *)

Lemma emptyQuery_withHandler (h : State -> State) (w : W) :
  (forall s, filteredData s = [] -> filteredData (h s) = []) ->
  emptyQueryNoResults w -> emptyQueryNoResults (withHandler h w).
Proof.
  unfold emptyQueryNoResults. intros Hf I. rewrite app_withHandler. cbn zeta.
  destruct (strictEq (inputValue (app w)) (inputValue (h (app w)))) eqn:E.
  - apply strictEq_eq in E. rewrite <- E. intros Q. auto.
  - destruct (strictEq (inputValue (h (app w))) []) eqn:E0; cbn.
    + reflexivity.
    + apply strictEq_neq in E0. contradiction.
Qed.

Lemma emptyQuery_elapse (ms : nat) (w : W) :
  settledOrPending w -> emptyQueryNoResults w ->
  emptyQueryNoResults (elapse (filterPass data) ms w).
Proof.
  unfold settledOrPending, emptyQueryNoResults, elapse. cbn.
  destruct (queue w) as [|t [|u q]]; cbn; [tauto | | tauto].
  intros (Ta & _) I. destruct (isDue (now w + ms) t); cbn; [|exact I].
  unfold fire. rewrite Ta. unfold filterPass.
  destruct (truthy (inputValue (app w))) eqn:T; cbn; [|exact I].
  intros Q. rewrite Q in T. discriminate.
Qed.

Lemma emptyQuery_step (e : Event) (w : W) :
  settledOrPending w -> emptyQueryNoResults w ->
  emptyQueryNoResults (step onEmptyRef data e w).
Proof.
  intros S I. destruct e as [ms|value|t]; cbn [step].
  - now apply emptyQuery_elapse.
  - now apply emptyQuery_withHandler.
  - apply emptyQuery_withHandler.
    + intros s _. now rewrite documentClick_state.
    + apply emptyQuery_withHandler; [|exact I].
      intros s E. now rewrite filteredData_rowHandler.
Qed.

(** In every reachable state with an empty query the results are
    empty. *)
Lemma reachable_emptyQuery (w : W) :
  reachable onEmptyRef data w -> emptyQueryNoResults w.
Proof.
  induction 1 as [|e w R IH _].
  - intros _. reflexivity.
  - apply emptyQuery_step; [now apply reachable_settled | exact IH].
Qed.

(** A run of events that are each enabled when they occur ends in a
    reachable state. *)
Lemma reachable_fold (events : list Event) :
  forall w : W,
    reachable onEmptyRef data w -> allEnabled onEmptyRef data w events = true ->
    reachable onEmptyRef data
      (fold_left (fun w e => step onEmptyRef data e w) events w).
Proof.
  induction events as [|e events IH]; intros w R E; cbn in *.
  - exact R.
  - apply andb_true_iff in E as [E1 E2].
    apply IH; [|exact E2]. now apply reach_step.
Qed.

Lemma reachable_run (events : list Event) :
  allEnabled onEmptyRef data mount events = true ->
  reachable onEmptyRef data (run onEmptyRef data events).
Proof.
  apply reachable_fold. apply reach_mount.
Qed.

End ControllerFacts.

(** ** The properties of the controller *)

Section ControllerClaims.

Context {table : CaseTable}.

Variable onEmptyRef : bool.
Variable data : list jsstring.

(** C3, amended. While the dropdown is visible, a click outside the root
    of the widget hides the dropdown and clears the results; a click on a
    row of the dropdown selects its item: the query becomes that item and
    the dropdown is hidden. *)
Theorem click_outside_or_on_item (w : W) :
  showDropdown (app w) = true ->
  (showDropdown (app (step onEmptyRef data (Click Outside) w)) = false
   /\ filteredData (app (step onEmptyRef data (Click Outside) w)) = [])
  /\ (forall (i : nat) (item : jsstring),
         nth_error (filteredData (app w)) i = Some item ->
         inputValue (app (step onEmptyRef data (Click (OnItem i)) w)) = item
         /\ showDropdown (app (step onEmptyRef data (Click (OnItem i)) w))
            = false).
Proof.
  intros _. split.
  - apply click_dismisses.
  - intros i item N. split.
    + rewrite inputValue_click. cbn. now rewrite N.
    + apply click_dismisses.
Qed.

(** C4, on the run in which the user types ["a"] and deletes it: the
    state is reachable, the query and the results are empty, and the
    dropdown is mounted and shows the [noMatch] row. *)
Theorem empty_query_dropdown_mounted :
  let w := run onEmptyRef data [Change (js "a"); Change []] in
  reachable onEmptyRef data w
  /\ inputValue (app w) = []
  /\ filteredData (app w) = []
  /\ showDropdown (app w) = true
  /\ viewDropdown (render (app w)) = Some [NoMatch].
Proof.
  split; [|now repeat split].
  apply reachable_run. reflexivity.
Qed.

(** C5. In every reachable state: when the loader is on, exactly one
    filter pass is pending and it is the pass for the current query;
    every pending pass is for the current query; when the loader is off
    nothing is pending, so the passing of time changes neither the
    loader nor the results; and no firing timer leaves the loader on. *)
Theorem loading_only_while_latest_pending (w : W) :
  reachable onEmptyRef data w ->
  (loading (app w) = true ->
   exists t, queue w = [t] /\ timer_args t = inputValue (app w))
  /\ (forall t, In t (queue w) -> timer_args t = inputValue (app w))
  /\ (loading (app w) = false ->
      queue w = []
      /\ forall ms, app (elapse (filterPass data) ms w) = app w)
  /\ (forall ms,
         loading (app (elapse (filterPass data) ms w)) = true ->
         app (elapse (filterPass data) ms w) = app w).
Proof.
  intros R. apply reachable_settled in R. unfold settledOrPending in R.
  unfold elapse. cbn.
  destruct (queue w) as [|t [|u q]]; [| |contradiction].
  - repeat split; try contradiction; try reflexivity. congruence.
  - destruct R as (Ta & _ & L). repeat split.
    + intros _. now exists t.
    + intros t' [<-|[]]. exact Ta.
    + congruence.
    + congruence.
    + intros ms. cbn. destruct (isDue (now w + ms) t); cbn; [|reflexivity].
      discriminate.
Qed.

(** The handler of a selection alone: [handleClick value] sets the query
    to [value], hides the dropdown and changes neither the results nor
    the loader. *)
Lemma handleClick_frame (value : jsstring) (s : State) :
  handleClick value s =
  {| inputValue := value;
     filteredData := filteredData s;
     loading := loading s;
     showDropdown := false |}
  /\ filteredData (handleClick value s) = filteredData s
  /\ viewDropdown (render (handleClick value s)) = None.
Proof.
  now repeat split.
Qed.

(** C8, on the selection of ["Cuba"] among the rows ["Canada"] and
    ["Cuba"] shown for the query ["c"]: the state is reachable and
    [handleClick] alone would leave the results; but the click that
    selects the row also reaches the listener on [document], which runs
    [handleOutsideClick]: after the selection the results are empty. *)
Theorem selection_click_clears_results :
  let w := run onEmptyRef exampleData [Change (js "c"); Elapse 500] in
  reachable onEmptyRef exampleData w
  /\ showDropdown (app w) = true
  /\ filteredData (app w) = [js "Canada"; js "Cuba"]
  /\ filteredData (handleClick (js "Cuba") (app w))
     = [js "Canada"; js "Cuba"]
  /\ app (step onEmptyRef exampleData (Click (OnItem 1)) w)
     = {| inputValue := js "Cuba";
          filteredData := [];
          loading := true;
          showDropdown := false |}.
Proof.
  split; [apply reachable_run; reflexivity|].
  destruct onEmptyRef; now repeat split.
Qed.

End ControllerClaims.

(** ** Concrete runs *)

Section Runs.

Existing Instance sameBeyond.

Lemma typed_c_settled_reachable :
  reachable false exampleData
    (run false exampleData [Change (js "c"); Elapse 500]).
Proof.
  apply reachable_run. reflexivity.
Qed.

Lemma typed_cu_pending_reachable :
  reachable false exampleData
    (run false exampleData [Change (js "c"); Elapse 200; Change (js "cu")]).
Proof.
  apply reachable_run. reflexivity.
Qed.

(** C3, as the claim states it, fails for a click inside the dropdown:
    with the rows ["Canada"] and ["Cuba"] shown for the query ["c"], a
    click on the row ["Cuba"] hides the dropdown. *)
Lemma click_inside_dropdown_counterexample :
  ~ (forall (onEmptyRef : bool) (data : list jsstring) (w : W),
        reachable onEmptyRef data w ->
        showDropdown (app w) = true ->
        (showDropdown (app (step onEmptyRef data (Click Outside) w)) = false
         /\ filteredData (app (step onEmptyRef data (Click Outside) w)) = [])
        /\ (forall t : Target,
               inDropdown t = true ->
               enabled (Click t) w = true ->
               showDropdown (app (step onEmptyRef data (Click t) w)) = true
               /\ filteredData (app (step onEmptyRef data (Click t) w))
                  = filteredData (app w))).
Proof.
  intros H.
  destruct (H false exampleData _ typed_c_settled_reachable eq_refl)
    as [_ Inside].
  destruct (Inside (OnItem 1) eq_refl eq_refl) as [Shown _].
  vm_compute in Shown. discriminate.
Qed.

Lemma click_outside_or_on_item_witness :
  showDropdown (app (run false exampleData [Change (js "c"); Elapse 500]))
  = true
  /\ inputValue
       (app (step false exampleData (Click (OnItem 1))
               (run false exampleData [Change (js "c"); Elapse 500])))
     = js "Cuba"
  /\ filteredData
       (app (step false exampleData (Click Outside)
               (run false exampleData [Change (js "c"); Elapse 500])))
     = [].
Proof.
  split; [reflexivity|]. split.
  - exact (proj1 (proj2 (click_outside_or_on_item false exampleData
                           (run false exampleData [Change (js "c"); Elapse 500])
                           eq_refl)
                    1 (js "Cuba") eq_refl)).
  - exact (proj2 (proj1 (click_outside_or_on_item false exampleData
                           (run false exampleData [Change (js "c"); Elapse 500])
                           eq_refl))).
Defined.

Lemma loading_only_while_latest_pending_witness :
  reachable false exampleData
    (run false exampleData [Change (js "c"); Elapse 200; Change (js "cu")])
  /\ forall t,
       In t (queue (run false exampleData
                      [Change (js "c"); Elapse 200; Change (js "cu")])) ->
       timer_args t = js "cu".
Proof.
  split; [exact typed_cu_pending_reachable|].
  exact (proj1 (proj2 (loading_only_while_latest_pending false exampleData
                         (run false exampleData
                            [Change (js "c"); Elapse 200; Change (js "cu")])
                         typed_cu_pending_reachable))).
Defined.

End Runs.

(* ================================================================= *)
(** * Part III: further properties of the code *)
(* ================================================================= *)

(** ** The [Dropdown] component *)

Section DropdownFacts.

Variable highlight : jsstring -> ReactNode.

Lemma dropdownRows_nth (l : list jsstring) :
  forall (k i : nat) (item : jsstring),
    nth_error l i = Some item ->
    nth_error (dropdownRows highlight k l) i
    = Some (ListItem (if Nat.even (k + i) then "#f9f9f9" else "#fff")
              item (highlight item)).
Proof.
  induction l as [|x l IH]; intros k [|i] item N; cbn in *;
    try discriminate.
  - injection N as ->. now rewrite Nat.add_0_r.
  - rewrite (IH (S k) i item N). now rewrite Nat.add_succ_r.
Qed.

Lemma dropdownRows_length (l : list jsstring) (k : nat) :
  List.length (dropdownRows highlight k l) = List.length l.
Proof.
  revert k; induction l as [|x l IH]; intros k; cbn; [reflexivity|].
  now rewrite IH.
Qed.

Lemma dropdownRows_In (l : list jsstring) :
  forall (k : nat) (row : Li),
    In row (dropdownRows highlight k l) ->
    exists (bg : string) (item : jsstring),
      In item l /\ row = ListItem bg item (highlight item).
Proof.
  induction l as [|x l IH]; intros k row H; cbn in H; [contradiction|].
  destruct H as [<-|H].
  - eexists _, x. split; [now left | reflexivity].
  - destruct (IH _ _ H) as (bg & item & I & E).
    exists bg, item. split; [now right | exact E].
Qed.

(** X1. The [i]-th row of the dropdown is the row of the [i]-th item:
    its click value is the item, its content is the highlighted item,
    and its background is [#f9f9f9] on even and [#fff] on odd rows; and
    the list, which then has an item, gets as many rows as it has
    items. *)
Theorem Dropdown_rows (l : list jsstring) (i : nat) (item : jsstring) :
  nth_error l i = Some item ->
  nth_error (Dropdown l highlight) i
  = Some (ListItem (if Nat.even i then "#f9f9f9" else "#fff")
            item (highlight item))
  /\ List.length (Dropdown l highlight) = List.length l.
Proof.
  intros N. destruct l as [|x l]; [now destruct i|].
  unfold Dropdown. split.
  - exact (dropdownRows_nth (x :: l) 0 i item N).
  - apply dropdownRows_length.
Qed.

(** X2. The dropdown shows the [noMatch] row exactly when there is no
    item, and then it shows nothing else; it never has no row at all. *)
Theorem Dropdown_noMatch (l : list jsstring) :
  (In NoMatch (Dropdown l highlight) <-> l = [])
  /\ (l = [] -> Dropdown l highlight = [NoMatch])
  /\ List.length (Dropdown l highlight) = Nat.max 1 (List.length l).
Proof.
  destruct l as [|x l].
  - repeat split; cbn; auto.
  - split; [|split].
    + split; [|discriminate]. intros H.
      destruct (dropdownRows_In _ _ _ H) as (bg & item & _ & E).
      discriminate.
    + discriminate.
    + unfold Dropdown. rewrite dropdownRows_length. cbn.
      now destruct (List.length l).
Qed.

End DropdownFacts.

Section DropdownRuns.

Existing Instance sameBeyond.

Lemma Dropdown_rows_witness :
  nth_error [js "Canada"; js "Cuba"] 1 = Some (js "Cuba")
  /\ nth_error (Dropdown [js "Canada"; js "Cuba"] (highlightMatch (js "c"))) 1
     = Some (ListItem "#fff" (js "Cuba")
               (highlightMatch (js "c") (js "Cuba"))).
Proof.
  split; [reflexivity|].
  exact (proj1 (Dropdown_rows (highlightMatch (js "c"))
                  [js "Canada"; js "Cuba"] 1 (js "Cuba") eq_refl)).
Defined.

Lemma Dropdown_noMatch_witness :
  @nil jsstring = [] /\ Dropdown [] (highlightMatch (js "c")) = [NoMatch].
Proof.
  split; [reflexivity|].
  exact (proj1 (proj2 (Dropdown_noMatch (highlightMatch (js "c")) []))
           eq_refl).
Defined.

End DropdownRuns.

(** ** The filter and the highlighter together *)

Section FilterHighlightFacts.

Context {table : CaseTable}.

(** When the filter keeps an item, [highlightMatch] returns a fragment. *)
Lemma highlightMatch_kept (q item : jsstring) :
  matches q item = true ->
  exists p m r, highlightMatch q item = Fragment p m r.
Proof.
  unfold matches, includes, highlightMatch. intros M.
  apply negb_true_iff in M. rewrite M. eauto.
Qed.

Lemma highlightMatch_dropped (q item : jsstring) :
  matches q item = false -> highlightMatch q item = Text item.
Proof.
  unfold matches, includes. intros M.
  apply negb_false_iff, Z.eqb_eq in M. now apply highlightMatch_absent.
Qed.

(** On strings of Latin-1 a kept item is cut at the first occurrence of
    the query. *)
Lemma highlightMatch_kept_latin1 (q item : jsstring) :
  latin1 q = true -> latin1 item = true ->
  matches q item = true ->
  exists p m r,
    highlightMatch q item = Fragment p m r
    /\ firstOccurrence q item p m r.
Proof.
  intros Lq Li M. unfold matches, includes in M.
  apply negb_true_iff, Z.eqb_neq in M.
  destruct (highlightMatch_found_latin1 q item Lq Li M)
    as (p & m & r & F & _ & H).
  now exists p, m, r.
Qed.

(** X3. [highlightMatch] emphasises a part of an item exactly when the
    filter keeps the item for the same query, and returns an item the
    filter drops as it is. When the query and the item are strings of
    Latin-1, a kept item is cut at the first occurrence of the query. *)
Theorem highlightMatch_agrees_with_filter (q item : jsstring) :
  (matches q item = true
   <-> exists p m r, highlightMatch q item = Fragment p m r)
  /\ (matches q item = false -> highlightMatch q item = Text item)
  /\ (latin1 q = true -> latin1 item = true ->
      matches q item = true ->
      exists p m r,
        highlightMatch q item = Fragment p m r
        /\ firstOccurrence q item p m r).
Proof.
  split; [|split].
  - split; [apply highlightMatch_kept|].
    intros (p & m & r & H). destruct (matches q item) eqn:M; [reflexivity|].
    rewrite (highlightMatch_dropped q item M) in H. discriminate.
  - apply highlightMatch_dropped.
  - apply highlightMatch_kept_latin1.
Qed.



(** What the filter keeps for a non-empty query is not empty. *)
Lemma matches_nonempty (q item : jsstring) :
  q <> [] -> matches q item = true -> item <> [].
Proof.
  intros N M ->. apply matches_iff in M. destruct M as (p & r & E).
  rewrite toLowerCase_nil in E. symmetry in E.
  apply app_eq_nil in E as [_ E]. apply app_eq_nil in E as [E _].
  exact (toLowerCase_nonempty q N E).
Qed.

Lemma matches_self (item : jsstring) : matches item item = true.
Proof.
  apply matches_iff. exists [], []. cbn. now rewrite app_nil_r.
Qed.

End FilterHighlightFacts.

Section FilterHighlightRuns.

Existing Instance sameBeyond.


Lemma highlightMatch_agrees_with_filter_witness :
  latin1 (js "AN") = true
  /\ latin1 (js "Canada") = true
  /\ matches (js "AN") (js "Canada") = true
  /\ exists p m r,
       highlightMatch (js "AN") (js "Canada") = Fragment p m r
       /\ firstOccurrence (js "AN") (js "Canada") p m r.
Proof.
  split; [reflexivity|]. split; [reflexivity|]. split; [reflexivity|].
  exact (proj2 (proj2 (highlightMatch_agrees_with_filter (js "AN")
                         (js "Canada")))
           eq_refl eq_refl eq_refl).
Defined.


End FilterHighlightRuns.

(** ** [useDebounce] under any spacing of the calls *)

Section DebounceSpacing.

Variable A : Type.
Variable delay : nat.

Lemma armedAfter_first_call (a : A) :
  armedAfter delay (debounced delay a (initWorld A [])) a [].
Proof.
  eexists. cbn. repeat split.
Qed.

(** The next call finds the pending timer either fired, when it comes
    no sooner than the delay, or still pending, and then it clears it. *)
Lemma armedAfter_next_call (w : World A (list A)) (a a' : A)
  (log : list A) (gap : nat) :
  armedAfter delay w a log ->
  armedAfter delay (debounced delay a' (elapse (@record A) gap w)) a'
    (log ++ if delay <=? gap then [a] else []).
Proof.
  intros (t & Q & Ta & D & R & L).
  unfold armedAfter, debounced, elapse. cbn. rewrite Q, R, L. cbn.
  unfold isDue. rewrite D.
  destruct (delay <=? gap) eqn:E.
  - apply Nat.leb_le in E.
    assert (H : (now w + delay <=? now w + gap) = true)
      by (apply Nat.leb_le; lia).
    rewrite H. cbn. unfold fire, record. rewrite Ta.
    eexists. repeat split.
  - apply Nat.leb_gt in E.
    assert (H : (now w + delay <=? now w + gap) = false)
      by (apply Nat.leb_gt; lia).
    rewrite H. cbn. rewrite Nat.eqb_refl. cbn. rewrite app_nil_r.
    eexists. repeat split.
Qed.

Lemma armedAfter_runCalls (calls : list (nat * A)) :
  forall (w : World A (list A)) (a : A) (log : list A),
    armedAfter delay w a log ->
    armedAfter delay (runCalls (@record A) delay w calls)
      (lastArgs a calls) (log ++ delivered delay a calls).
Proof.
  induction calls as [|[gap a'] calls IH]; intros w a log Ar.
  - cbn. now rewrite app_nil_r.
  - unfold lastArgs. cbn [map snd runCalls delivered].
    rewrite last_cons_default, app_assoc.
    apply IH. now apply armedAfter_next_call.
Qed.

Lemma armedAfter_elapse (w : World A (list A)) (a : A) (log : list A)
  (d : nat) :
  armedAfter delay w a log ->
  app (elapse (@record A) d w)
  = log ++ if delay <=? d then [a] else [].
Proof.
  intros (t & Q & Ta & D & _ & L). unfold elapse. cbn. rewrite Q, L. cbn.
  unfold isDue. rewrite D.
  destruct (delay <=? d) eqn:E.
  - apply Nat.leb_le in E.
    assert (H : (now w + delay <=? now w + d) = true)
      by (apply Nat.leb_le; lia).
    rewrite H. cbn. unfold fire, record. now rewrite Ta.
  - apply Nat.leb_gt in E.
    assert (H : (now w + delay <=? now w + d) = false)
      by (apply Nat.leb_gt; lia).
    rewrite H. cbn. now rewrite app_nil_r.
Qed.

(** X5. Whatever the spacing of the calls of a debounced function: after
    each call exactly one timer is pending, that of the last call; the
    action has been invoked, in order, with the arguments of exactly the
    calls that were followed by a call no sooner than the delay later;
    and the last call is delivered too once the delay has passed. *)
Theorem debounce_delivers (a0 : A) (calls : list (nat * A)) :
  let w := runCalls (@record A) delay
             (debounced delay a0 (initWorld A [])) calls in
  map (@timer_args A) (queue w) = [lastArgs a0 calls]
  /\ app w = delivered delay a0 calls
  /\ forall d : nat,
       app (elapse (@record A) d w)
       = delivered delay a0 calls
         ++ if delay <=? d then [lastArgs a0 calls] else [].
Proof.
  intros w.
  assert (Ar : armedAfter delay w (lastArgs a0 calls)
                 (delivered delay a0 calls)).
  { exact (armedAfter_runCalls calls _ a0 [] (armedAfter_first_call a0)). }
  clearbody w. split; [|split].
  - destruct Ar as (t & Q & Ta & _). now rewrite Q, <- Ta.
  - now destruct Ar as (t & _ & _ & _ & _ & L).
  - intros d. now apply armedAfter_elapse.
Qed.

End DebounceSpacing.

(** ** Further invariants of the controller *)

Section ControllerInvariants.

Context {table : CaseTable}.

Variable onEmptyRef : bool.
Variable data : list jsstring.

(** *** The results come from [data] *)

Lemma fromData_filterPass (v : jsstring) (s : State) :
  fromData data (filteredData s) ->
  fromData data (filteredData (filterPass data v s)).
Proof.
  intros F. unfold filterPass, truthy.
  destruct (strictEq v []) eqn:E; cbn; [exact F|].
  right. exists v. split; [now apply strictEq_neq | reflexivity].
Qed.

Lemma fromData_fire (timers : list (Timer jsstring)) :
  forall s : State,
    fromData data (filteredData s) ->
    fromData data (filteredData (fold_left (fire (filterPass data)) timers s)).
Proof.
  induction timers as [|t timers IH]; intros s F; cbn; [exact F|].
  apply IH. now apply fromData_filterPass.
Qed.

Lemma fromData_withHandler (h : State -> State) (w : W) :
  (forall s, filteredData (h s) = filteredData s \/ filteredData (h s) = []) ->
  fromData data (filteredData (app w)) ->
  fromData data (filteredData (app (withHandler h w))).
Proof.
  intros K F. rewrite app_withHandler. cbn zeta.
  assert (F' : fromData data (filteredData (h (app w)))).
  { destruct (K (app w)) as [-> | ->]; [exact F | now left]. }
  destruct (strictEq (inputValue (app w)) (inputValue (h (app w))));
    [exact F'|].
  destruct (strictEq (inputValue (h (app w))) []); cbn; [now left | exact F'].
Qed.

Lemma fromData_step (e : Event) (w : W) :
  fromData data (filteredData (app w)) ->
  fromData data (filteredData (app (step onEmptyRef data e w))).
Proof.
  intros F. destruct e as [ms|value|t]; cbn [step].
  - unfold elapse. cbn. now apply fromData_fire.
  - apply fromData_withHandler; [|exact F]. intros s. now left.
  - apply fromData_withHandler.
    + intros s. right. now rewrite documentClick_state.
    + apply fromData_withHandler; [|exact F].
      intros s. left. apply filteredData_rowHandler.
Qed.

Lemma reachable_fromData (w : W) :
  reachable onEmptyRef data w -> fromData data (filteredData (app w)).
Proof.
  induction 1 as [|e w R IH _]; [now left | now apply fromData_step].
Qed.

Lemma fromData_member (l : list jsstring) (item : jsstring) :
  fromData data l -> In item l -> In item data /\ item <> [].
Proof.
  intros [E | (v & N & E)] I; rewrite E in I; [contradiction|].
  apply filter_In in I as [I M]. split; [exact I|].
  exact (matches_nonempty v item N M).
Qed.

(** X6. In every reachable state the results come from [data]: they are
    empty or what the filter keeps of [data] for some non-empty query, so
    every result is a member of [data], in the order of [data], and is
    not the empty jsstring. *)
Theorem results_from_data (w : W) :
  reachable onEmptyRef data w ->
  fromData data (filteredData (app w))
  /\ forall item,
       In item (filteredData (app w)) -> In item data /\ item <> [].
Proof.
  intros R. pose proof (reachable_fromData w R) as F.
  split; [exact F|]. intros item. now apply fromData_member.
Qed.

(** *** With the loader off the results are those of the query *)

Lemma settledResults_elapse (ms : nat) (w : W) :
  settledOrPending w -> emptyQueryNoResults w -> settledResults data w ->
  settledResults data (elapse (filterPass data) ms w).
Proof.
  unfold settledOrPending, emptyQueryNoResults, settledResults, elapse. cbn.
  destruct (queue w) as [|t [|u q]]; cbn; [tauto | | tauto].
  intros (Ta & _ & L) Em _.
  destruct (isDue (now w + ms) t); cbn; [|congruence].
  intros _. unfold fire. rewrite Ta. unfold filterPass, truthy.
  destruct (strictEq (inputValue (app w)) []) eqn:E; cbn.
  - left. apply Em. now apply strictEq_eq.
  - now right.
Qed.

Lemma settledResults_withHandler (h : State -> State) (w : W) :
  (forall s, loading (h s) = loading s) ->
  (forall s, filteredData (h s) = filteredData s \/ filteredData (h s) = []) ->
  settledResults data w -> settledResults data (withHandler h w).
Proof.
  unfold settledResults. intros Hl K S. rewrite app_withHandler. cbn zeta.
  destruct (strictEq (inputValue (app w)) (inputValue (h (app w)))) eqn:E.
  - apply strictEq_eq in E. rewrite Hl, <- E. intros L.
    destruct (K (app w)) as [-> | ->]; [now apply S | now left].
  - destruct (strictEq (inputValue (h (app w))) []); cbn; discriminate.
Qed.

Lemma settledResults_step (e : Event) (w : W) :
  settledOrPending w -> emptyQueryNoResults w -> settledResults data w ->
  settledResults data (step onEmptyRef data e w).
Proof.
  intros P Em S. destruct e as [ms|value|t]; cbn [step].
  - now apply settledResults_elapse.
  - apply settledResults_withHandler; auto.
  - apply settledResults_withHandler.
    + intros s. now rewrite documentClick_state.
    + intros s. right. now rewrite documentClick_state.
    + apply settledResults_withHandler; [| |exact S].
      * apply loading_rowHandler.
      * intros s. left. apply filteredData_rowHandler.
Qed.

Lemma reachable_settledResults (w : W) :
  reachable onEmptyRef data w -> settledResults data w.
Proof.
  induction 1 as [|e w R IH _].
  - discriminate.
  - apply settledResults_step;
      [now apply (reachable_settled onEmptyRef data)
      | now apply (reachable_emptyQuery onEmptyRef data)
      | exact IH].
Qed.

(** X7. In every reachable state with the loader off, no filter pass is
    pending, and the results are either cleared or exactly what the
    filter keeps of [data] for the current query: results of an earlier
    query are never shown with the loader off. *)
Theorem settled_results (w : W) :
  reachable onEmptyRef data w ->
  loading (app w) = false ->
  queue w = []
  /\ (filteredData (app w) = []
      \/ filteredData (app w) = filter (matches (inputValue (app w))) data).
Proof.
  intros R L. split.
  - pose proof (reachable_settled onEmptyRef data w R) as P.
    unfold settledOrPending in P.
    destruct (queue w) as [|t [|u q]]; [reflexivity | | contradiction].
    destruct P as (_ & _ & L'). congruence.
  - exact (reachable_settledResults w R L).
Qed.

End ControllerInvariants.

(** ** Time and transitions of the controller *)

Section ControllerTransitions.

Context {table : CaseTable}.

Variable onEmptyRef : bool.
Variable data : list jsstring.

(** *** A pending pass is due within the quiet period *)

Lemma In_enqueue (t x : Timer jsstring) (q : list (Timer jsstring)) :
  In x (enqueue t q) -> x = t \/ In x q.
Proof.
  induction q as [|u q IH]; cbn [enqueue In].
  - intros [<-|[]]. now left.
  - destruct (deadline t <? deadline u)%nat; cbn [In].
    + intros [<-|H]; [now left | now right].
    + intros [<-|H]; [right; now left|].
      destruct (IH H) as [->|I]; [now left | right; now right].
Qed.

Lemma In_clearTimeout (id : option nat) (x : Timer jsstring)
  (q : list (Timer jsstring)) :
  In x (clearTimeout id q) -> In x q.
Proof.
  destruct id as [i|]; cbn; [|auto].
  intros H. now apply filter_In in H.
Qed.

Lemma dueSoon_withHandler (h : State -> State) (w : W) :
  pendingDueSoon w -> pendingDueSoon (withHandler h w).
Proof.
  unfold pendingDueSoon, withHandler, commit. cbn. intros P.
  destruct (strictEq (inputValue (app w)) (inputValue (h (app w)))); [exact P|].
  unfold effectClear. cbn.
  destruct (strictEq (inputValue (h (app w))) []); cbn; intros t I;
    apply In_enqueue in I as [->|I]; cbn; try lia;
    apply In_clearTimeout in I; now apply P.
Qed.

Lemma dueSoon_elapse (ms : nat) (w : W) :
  pendingDueSoon w -> pendingDueSoon (elapse (filterPass data) ms w).
Proof.
  unfold pendingDueSoon, elapse. cbn. intros P t I.
  apply filter_In in I as [I _]. specialize (P t I). lia.
Qed.

Lemma reachable_dueSoon (w : W) :
  reachable onEmptyRef data w -> pendingDueSoon w.
Proof.
  induction 1 as [|e w R IH _].
  - intros t [<-|[]]. cbn. lia.
  - destruct e as [ms|value|t]; cbn [step].
    + now apply dueSoon_elapse.
    + now apply dueSoon_withHandler.
    + now apply dueSoon_withHandler, dueSoon_withHandler.
Qed.

(** Once the quiet period has passed nothing is pending, and a pass that
    was pending has run for the current query. *)
Lemma quiet_period_runs_pass (w : W) (ms : nat) :
  reachable onEmptyRef data w ->
  quietPeriod <= ms ->
  queue (elapse (filterPass data) ms w) = []
  /\ app (elapse (filterPass data) ms w)
     = (if loading (app w)
        then filterPass data (inputValue (app w)) (app w)
        else app w).
Proof.
  intros R Q.
  pose proof (reachable_settled onEmptyRef data w R) as P.
  pose proof (reachable_dueSoon w R) as D.
  unfold settledOrPending in P. unfold pendingDueSoon in D.
  unfold elapse. cbn [queue app].
  destruct (queue w) as [|t [|u q]]; [| |contradiction]; cbn [filter].
  - rewrite P. now split.
  - destruct P as (Ta & _ & L).
    assert (Due : isDue (now w + ms) t = true).
    { unfold isDue. apply Nat.leb_le.
      specialize (D t (or_introl eq_refl)). lia. }
    rewrite Due, L. cbn [fold_left filter negb]. unfold fire. rewrite Ta.
    now split.
Qed.

(** X8. From every reachable state, once the quiet period has passed
    with no event, nothing is pending and the loader is off; if a pass
    was pending it has run for the current query, so for a non-empty
    query the results are what the filter keeps of [data] for it; if
    none was pending nothing has changed. *)
Theorem settles_after_quiet_period (w : W) (ms : nat) :
  reachable onEmptyRef data w ->
  quietPeriod <= ms ->
  queue (elapse (filterPass data) ms w) = []
  /\ loading (app (elapse (filterPass data) ms w)) = false
  /\ app (elapse (filterPass data) ms w)
     = (if loading (app w)
        then filterPass data (inputValue (app w)) (app w)
        else app w)
  /\ (loading (app w) = true ->
      inputValue (app w) <> [] ->
      filteredData (app (elapse (filterPass data) ms w))
      = filter (matches (inputValue (app w))) data).
Proof.
  intros R Q. destruct (quiet_period_runs_pass w ms R Q) as [Qu Ap].
  split; [exact Qu|]. split; [|split; [exact Ap|]].
  - rewrite Ap. destruct (loading (app w)) eqn:L; [reflexivity | exact L].
  - intros L N. rewrite Ap, L.
    now rewrite (filterPass_truthy data _ (app w) N).
Qed.

(** *** What a change of the input does *)

(** X9. In every reachable state, a change of the input to a value other
    than the current query opens the dropdown, switches the loader on
    and leaves exactly one pass pending, for the new value and due after
    the quiet period; the results stay as they were unless the new value
    is empty, which clears them; and until the quiet period has passed
    nothing else changes. *)
Theorem change_schedules_pass (w : W) (v : jsstring) :
  reachable onEmptyRef data w ->
  v <> inputValue (app w) ->
  queue (step onEmptyRef data (Change v) w)
  = [mkTimer (next_id w) (now w + quietPeriod) v]
  /\ app (step onEmptyRef data (Change v) w)
     = {| inputValue := v;
          filteredData := if strictEq v [] then [] else filteredData (app w);
          loading := true;
          showDropdown := true |}
  /\ forall ms,
       ms < quietPeriod ->
       app (elapse (filterPass data) ms (step onEmptyRef data (Change v) w))
       = app (step onEmptyRef data (Change v) w).
Proof.
  intros R N.
  pose proof (reachable_settled onEmptyRef data w R) as P.
  unfold settledOrPending in P.
  assert (E : (strictEq (inputValue (app w)) v) = false)
    by (apply strictEq_neq; congruence).
  assert (Q : queue (step onEmptyRef data (Change v) w)
              = [mkTimer (next_id w) (now w + quietPeriod) v]).
  { assert (C : clearTimeout (timeoutRef w) (queue w) = []).
    { destruct (queue w) as [|t [|u q]]; [| |contradiction].
      - now destruct (timeoutRef w).
      - destruct P as (_ & Rf & _). rewrite Rf. cbn.
        now rewrite Nat.eqb_refl. }
    cbn [step]. unfold withHandler, commit. cbn. rewrite E.
    unfold effectClear, effectFilter, debounceFilter, debounced. cbn.
    destruct (strictEq v []); cbn; now rewrite C. }
  assert (T : now (step onEmptyRef data (Change v) w) = now w).
  { cbn [step]. unfold withHandler, commit. cbn. rewrite E.
    unfold effectClear. cbn. destruct (strictEq v []); reflexivity. }
  split; [exact Q|]. split.
  - cbn [step]. rewrite app_withHandler. cbn. rewrite E.
    destruct (strictEq v []); reflexivity.
  - intros ms Lt.
    assert (Due : isDue (now w + ms)
                    (mkTimer (next_id w) (now w + quietPeriod) v) = false).
    { unfold isDue. cbn [deadline]. apply Nat.leb_gt. lia. }
    unfold elapse. cbn [app]. rewrite Q, T. cbn [filter].
    now rewrite Due.
Qed.

(** *** What is rendered *)

(** X10. In every reachable state with an empty query no row of a
    candidate is rendered: the dropdown is not mounted, or it is mounted
    with the [noMatch] row alone. *)
Theorem empty_query_renders_no_item (w : W) :
  reachable onEmptyRef data w ->
  inputValue (app w) = [] ->
  viewDropdown (render (app w))
  = if showDropdown (app w) then Some [NoMatch] else None.
Proof.
  intros R E. unfold render. cbn.
  now rewrite (reachable_emptyQuery onEmptyRef data w R E).
Qed.


(** *** Selecting an item *)

(** A click on a row whose item is not the current query: the query is
    the item, the dropdown is hidden, the results are cleared and the
    loader is on. *)
Lemma app_click_on_item (w : W) (i : nat) (x : jsstring) :
  nth_error (filteredData (app w)) i = Some x ->
  x <> [] ->
  x <> inputValue (app w) ->
  app (step onEmptyRef data (Click (OnItem i)) w)
  = {| inputValue := x;
       filteredData := [];
       loading := true;
       showDropdown := false |}.
Proof.
  intros N Ne Nq. cbn [step].
  assert (A1 : app (withHandler (rowHandler (OnItem i)) w)
               = setLoading true (handleClick x (app w))).
  { rewrite app_withHandler. cbn [rowHandler]. rewrite N. cbn.
    assert (E : strictEq (inputValue (app w)) x = false)
      by (apply strictEq_neq; congruence).
    apply strictEq_neq in Ne. now rewrite E, Ne. }
  rewrite app_withHandler. cbn zeta. rewrite documentClick_state, A1. cbn.
  now rewrite strictEq_refl.
Qed.

(** X12. In every reachable state with the dropdown shown, a click on
    the row of an item that is not already the query, followed by the
    quiet period, ends with the item as the query, the dropdown hidden,
    the loader off, and as results what the filter keeps of [data] for
    the item, the item itself among them. *)
Theorem select_then_settle (w : W) (i : nat) (x : jsstring) (ms : nat) :
  reachable onEmptyRef data w ->
  showDropdown (app w) = true ->
  nth_error (filteredData (app w)) i = Some x ->
  x <> inputValue (app w) ->
  quietPeriod <= ms ->
  app (elapse (filterPass data) ms
         (step onEmptyRef data (Click (OnItem i)) w))
  = {| inputValue := x;
       filteredData := filter (matches x) data;
       loading := false;
       showDropdown := false |}
  /\ In x (filter (matches x) data).
Proof.
  intros R Sh N Nq Q.
  destruct (fromData_member data _ x
              (reachable_fromData onEmptyRef data w R)
              (nth_error_In _ _ N)) as [Id Ne].
  assert (R1 : reachable onEmptyRef data
                 (step onEmptyRef data (Click (OnItem i)) w)).
  { apply reach_step; [exact R|]. cbn. rewrite Sh. cbn.
    apply Nat.ltb_lt. apply nth_error_Some. congruence. }
  destruct (quiet_period_runs_pass _ ms R1 Q) as [_ Ap].
  rewrite Ap, (app_click_on_item w i x N Ne Nq). cbn [loading inputValue].
  rewrite (filterPass_truthy data x _ Ne). split; [reflexivity|].
  apply filter_In. split; [exact Id | apply matches_self].
Qed.

(** *** A click does not cancel the pending pass *)

Lemma app_click_elsewhere (w : W) (t : Target) :
  inDropdown t = false ->
  app (step onEmptyRef data (Click t) w)
  = {| inputValue := inputValue (app w);
       filteredData := [];
       loading := loading (app w);
       showDropdown := false |}.
Proof.
  intros O. cbn [step].
  assert (A1 : app (withHandler (rowHandler t) w) = app w).
  { rewrite app_withHandler. destruct t; try discriminate; cbn;
      now rewrite strictEq_refl. }
  rewrite app_withHandler. cbn zeta. rewrite documentClick_state, A1. cbn.
  now rewrite strictEq_refl.
Qed.

(** X13. A click outside the dropdown clears the results but does not
    cancel a pending pass: from a reachable state with the loader on and
    a non-empty query, after such a click and the quiet period the
    results are again what the filter keeps of [data] for the query,
    with the dropdown hidden and the loader off. *)
Theorem click_keeps_pending_pass (w : W) (t : Target) (ms : nat) :
  reachable onEmptyRef data w ->
  inDropdown t = false ->
  loading (app w) = true ->
  inputValue (app w) <> [] ->
  quietPeriod <= ms ->
  filteredData (app (step onEmptyRef data (Click t) w)) = []
  /\ app (elapse (filterPass data) ms (step onEmptyRef data (Click t) w))
     = {| inputValue := inputValue (app w);
          filteredData := filter (matches (inputValue (app w))) data;
          loading := false;
          showDropdown := false |}.
Proof.
  intros R O L N Q.
  assert (R1 : reachable onEmptyRef data (step onEmptyRef data (Click t) w)).
  { apply reach_step; [exact R|]. now destruct t. }
  destruct (quiet_period_runs_pass _ ms R1 Q) as [_ Ap].
  rewrite Ap, (app_click_elsewhere w t O).
  cbn [loading inputValue filteredData].
  rewrite L. split; [reflexivity|].
  now rewrite (filterPass_truthy data _ _ N).
Qed.

End ControllerTransitions.

(** ** Concrete runs for the further properties *)

Section MoreRuns.

Existing Instance sameBeyond.

Lemma typed_a_deleted_reachable :
  reachable false exampleData
    (run false exampleData [Change (js "a"); Change []]).
Proof.
  apply reachable_run. reflexivity.
Qed.

Lemma results_from_data_witness :
  reachable false exampleData
    (run false exampleData [Change (js "c"); Elapse 500])
  /\ forall item,
       In item (filteredData
                  (app (run false exampleData [Change (js "c"); Elapse 500]))) ->
       In item exampleData /\ item <> [].
Proof.
  split; [exact typed_c_settled_reachable|].
  exact (proj2 (results_from_data false exampleData _
                  typed_c_settled_reachable)).
Defined.

Lemma settled_results_witness :
  reachable false exampleData
    (run false exampleData [Change (js "c"); Elapse 500])
  /\ loading (app (run false exampleData [Change (js "c"); Elapse 500])) = false
  /\ queue (run false exampleData [Change (js "c"); Elapse 500]) = [].
Proof.
  split; [exact typed_c_settled_reachable|]. split; [reflexivity|].
  exact (proj1 (settled_results false exampleData _
                  typed_c_settled_reachable eq_refl)).
Defined.

Lemma cu_is_not_empty : (js "cu") <> [].
Proof. discriminate. Qed.

Lemma settles_after_quiet_period_witness :
  reachable false exampleData
    (run false exampleData [Change (js "c"); Elapse 200; Change (js "cu")])
  /\ quietPeriod <= 500
  /\ filteredData
       (app (elapse (filterPass exampleData) 500
               (run false exampleData
                  [Change (js "c"); Elapse 200; Change (js "cu")])))
     = filter (matches (js "cu")) exampleData.
Proof.
  split; [exact typed_cu_pending_reachable|]. split; [exact (le_n 500)|].
  exact (proj2 (proj2 (proj2
           (settles_after_quiet_period false exampleData _ 500
              typed_cu_pending_reachable (le_n 500))))
           eq_refl cu_is_not_empty).
Defined.

Lemma cu_is_not_c :
  js "cu"
  <> inputValue (app (run false exampleData [Change (js "c"); Elapse 500])).
Proof. discriminate. Qed.

Lemma change_schedules_pass_witness :
  reachable false exampleData
    (run false exampleData [Change (js "c"); Elapse 500])
  /\ (js "cu") <> inputValue
               (app (run false exampleData [Change (js "c"); Elapse 500]))
  /\ app (step false exampleData (Change (js "cu"))
            (run false exampleData [Change (js "c"); Elapse 500]))
     = {| inputValue := js "cu";
          filteredData := [js "Canada"; js "Cuba"];
          loading := true;
          showDropdown := true |}.
Proof.
  split; [exact typed_c_settled_reachable|]. split; [exact cu_is_not_c|].
  exact (proj1 (proj2
           (change_schedules_pass false exampleData _ (js "cu")
              typed_c_settled_reachable cu_is_not_c))).
Defined.

Lemma empty_query_renders_no_item_witness :
  reachable false exampleData
    (run false exampleData [Change (js "a"); Change []])
  /\ inputValue (app (run false exampleData [Change (js "a"); Change []])) = []
  /\ viewDropdown
       (render (app (run false exampleData [Change (js "a"); Change []])))
     = Some [NoMatch].
Proof.
  split; [exact typed_a_deleted_reachable|]. split; [reflexivity|].
  exact (empty_query_renders_no_item false exampleData _
           typed_a_deleted_reachable eq_refl).
Defined.


Lemma Cuba_is_not_c :
  (js "Cuba")
  <> inputValue (app (run false exampleData [Change (js "c"); Elapse 500])).
Proof. discriminate. Qed.

Lemma select_then_settle_witness :
  reachable false exampleData
    (run false exampleData [Change (js "c"); Elapse 500])
  /\ showDropdown (app (run false exampleData [Change (js "c"); Elapse 500]))
     = true
  /\ nth_error
       (filteredData (app (run false exampleData [Change (js "c"); Elapse 500])))
       1
     = Some (js "Cuba")
  /\ (js "Cuba")
     <> inputValue (app (run false exampleData [Change (js "c"); Elapse 500]))
  /\ quietPeriod <= 500
  /\ app (elapse (filterPass exampleData) 500
            (step false exampleData (Click (OnItem 1))
               (run false exampleData [Change (js "c"); Elapse 500])))
     = {| inputValue := js "Cuba";
          filteredData := filter (matches (js "Cuba")) exampleData;
          loading := false;
          showDropdown := false |}.
Proof.
  split; [exact typed_c_settled_reachable|]. split; [reflexivity|].
  split; [reflexivity|]. split; [exact Cuba_is_not_c|].
  split; [exact (le_n 500)|].
  exact (proj1 (select_then_settle false exampleData _ 1 (js "Cuba") 500
                  typed_c_settled_reachable eq_refl eq_refl
                  Cuba_is_not_c (le_n 500))).
Defined.

Lemma typed_c_pending_reachable :
  reachable false exampleData
    (run false exampleData [Change (js "c"); Elapse 100]).
Proof.
  apply reachable_run. reflexivity.
Qed.

Lemma c_is_not_empty :
  inputValue (app (run false exampleData [Change (js "c"); Elapse 100])) <> [].
Proof. discriminate. Qed.

Lemma click_keeps_pending_pass_witness :
  reachable false exampleData
    (run false exampleData [Change (js "c"); Elapse 100])
  /\ inDropdown Outside = false
  /\ loading (app (run false exampleData [Change (js "c"); Elapse 100])) = true
  /\ inputValue (app (run false exampleData [Change (js "c"); Elapse 100])) <> []
  /\ quietPeriod <= 500
  /\ app (elapse (filterPass exampleData) 500
            (step false exampleData (Click Outside)
               (run false exampleData [Change (js "c"); Elapse 100])))
     = {| inputValue := js "c";
          filteredData := [js "Canada"; js "Cuba"];
          loading := false;
          showDropdown := false |}.
Proof.
  split; [exact typed_c_pending_reachable|]. split; [reflexivity|].
  split; [reflexivity|]. split; [exact c_is_not_empty|].
  split; [exact (le_n 500)|].
  exact (proj2 (click_keeps_pending_pass false exampleData _ Outside 500
                  typed_c_pending_reachable eq_refl eq_refl
                  c_is_not_empty (le_n 500))).
Defined.

End MoreRuns.
